(** * TypeManager: the type registry of the typed lexical variable blocks

    A shallow embedding of [src/typeManager.js] (class [TypeManager]) and
    of the parts of JavaScript it runs on: values, strings, [Map], the
    [JSON] object. *)

From Stdlib Require Import ZArith Lia Bool Ascii String DecimalString DecimalZ.
From stdpp Require Import gmap strings list fin_maps pretty.

Set Warnings "-register-all".

(** ** JavaScript values *)

(** A value as the registry sees it.  Objects and arrays are written as
    trees; the properties of an object are a finite map from names, their
    order is not kept (no method of the registry depends on it), nor are
    prototypes and functions.  [VCycle up] stands where a property holds
    an object that encloses it, [VCycle 0] the object the property is in,
    [VCycle 1] the object that one is in: the object graph has a cycle
    there.  Numbers are the integers; fractions, NaN and the infinities
    are left out, the registry never computes with a number. *)
Inductive jsval :=
| VUndefined
| VNull
| VBool (b : bool)
| VNum (n : Z)
| VStr (s : string)
| VArr (elems : list jsval)
| VObj (props : gmap string jsval)
| VCycle (up : nat).

Inductive exn := TypeError | RangeError | SyntaxError.

Inductive result (A : Type) :=
| Returns (a : A)
| Throws (e : exn).
Arguments Returns {A} a.
Arguments Throws {A} e.

#[global] Instance result_ret : MRet result := fun A a => Returns a.
#[global] Instance result_bind : MBind result := fun A B k r =>
  match r with
  | Returns a => k a
  | Throws e => Throws e
  end.

(** [a && b] where evaluating an operand may throw: [b] is looked at only
    when [a] is true. *)
Definition and_then (a b : result bool) : result bool :=
  match a with
  | Returns true => b
  | _ => a
  end.

(** ToBoolean *)
Definition truthy (v : jsval) : bool :=
  match v with
  | VUndefined | VNull => false
  | VBool b => b
  | VNum n => negb (n =? 0)%Z
  | VStr s => negb (String.eqb s "")
  | VArr _ | VObj _ | VCycle _ => true
  end.

(** [a === b].  Two objects are equal when they are the same object; the
    trees carry no identity, and two object operands are taken to be
    different objects. *)
Definition strict_eq (a b : jsval) : bool :=
  match a, b with
  | VUndefined, VUndefined => true
  | VNull, VNull => true
  | VBool x, VBool y => Bool.eqb x y
  | VNum x, VNum y => (x =? y)%Z
  | VStr x, VStr y => String.eqb x y
  | _, _ => false
  end.

(** [array.includes(v)] *)
Definition includes (array : list jsval) (v : jsval) : bool :=
  existsb (fun x => strict_eq x v) array.

(** ** Strings *)

(** [s.endsWith(searchString)] *)
Definition endsWith (s searchString : string) : bool :=
  let len := String.length s in
  let searchLength := String.length searchString in
  if len <? searchLength then false
  else String.eqb (String.substring (len - searchLength) searchLength s) searchString.

(** A relative index of [slice] clamped into [0 .. len]. *)
Definition clamp_index (len : nat) (i : Z) : nat :=
  if (i <? 0)%Z then Z.to_nat (Z.max (Z.of_nat len + i) 0)
  else Nat.min (Z.to_nat i) len.

(** [s.slice(start, end)] *)
Definition slice (s : string) (start end_ : Z) : string :=
  let len := String.length s in
  let from := clamp_index len start in
  let to := clamp_index len end_ in
  String.substring from (to - from) s.

(** [s.includes(searchString)] *)
Fixpoint str_includes (s searchString : string) : bool :=
  if String.prefix searchString s then true
  else match s with
       | EmptyString => false
       | String _ rest => str_includes rest searchString
       end.

(** The two string methods called on a value that may not be a string:
    a value without the method makes the call throw. *)
Definition js_endsWith (v : jsval) (searchString : string) : result bool :=
  match v with
  | VStr s => Returns (endsWith s searchString)
  | _ => Throws TypeError
  end.

Definition js_slice (v : jsval) (start end_ : Z) : result jsval :=
  match v with
  | VStr s => Returns (VStr (slice s start end_))
  | VArr l =>
      let from := clamp_index (length l) start in
      let to := clamp_index (length l) end_ in
      Returns (VArr (take (to - from) (drop from l)))
  | _ => Throws TypeError
  end.

(** ** areTypesCompatible *)

Definition numericTypes : list jsval :=
  [VStr "number"; VStr "int"; VStr "float"; VStr "double"].

(** The body of [areTypesCompatible]; [fuel] bounds the depth of the
    recursion, and running out of it is the engine's stack overflow. *)
Fixpoint areTypesCompatible_fuel (fuel : nat) (targetType sourceType : jsval)
  : result bool :=
  match fuel with
  | O => Throws RangeError
  | S fuel =>
      (* Handle 'any' type *)
      if strict_eq targetType (VStr "any") || strict_eq sourceType (VStr "any")
      then Returns true
      (* Handle exact matches *)
      else if strict_eq targetType sourceType then Returns true
      (* Handle numeric types *)
      else if includes numericTypes targetType && includes numericTypes sourceType
      then Returns true
      else
        (* Handle array types *)
        isArray ← and_then (js_endsWith targetType "[]")
                            (js_endsWith sourceType "[]");
        if isArray : bool then
          targetBase ← js_slice targetType 0 (-2);
          sourceBase ← js_slice sourceType 0 (-2);
          areTypesCompatible_fuel fuel targetBase sourceBase
        else
          (* Handle pointer types (for C) *)
          isPointer ← and_then (js_endsWith targetType "*")
                                (js_endsWith sourceType "*");
          if isPointer : bool then
            targetBase ← js_slice targetType 0 (-1);
            sourceBase ← js_slice sourceType 0 (-1);
            areTypesCompatible_fuel fuel targetBase sourceBase
          else Returns false
  end.

(** Every recursive call shortens the target, so its length bounds the
    depth. *)
Definition depth_bound (targetType : jsval) : nat :=
  match targetType with
  | VStr s => S (String.length s)
  | _ => 1
  end.

Definition areTypesCompatible (targetType sourceType : jsval) : result bool :=
  areTypesCompatible_fuel (depth_bound targetType) targetType sourceType.


(** ** Properties *)

(** The own enumerable properties of a value, by name: those of an object,
    the indexed elements of an array, the indexed characters of a
    string. *)
Definition indexed (l : list jsval) : gmap string jsval :=
  list_to_map (imap (fun i x => (pretty i, x)) l).

Definition characters (s : string) : list jsval :=
  (fun c => VStr (String c EmptyString)) <$> String.list_ascii_of_string s.

Definition own_properties (v : jsval) : gmap string jsval :=
  match v with
  | VObj props => props
  | VArr elems => indexed elems
  | VStr s => indexed (characters s)
  | _ => ∅
  end.

(** [v.name], for the data properties; reading a property of [null] or
    [undefined] throws.  The names the registry reads ([type],
    [variableTypes], [blockTypes], [typeErrors]) are on no built-in
    prototype. *)
Definition get (v : jsval) (name : string) : result jsval :=
  match v with
  | VUndefined | VNull => Throws TypeError
  | _ =>
      match own_properties v !! name with
      | Some x => Returns x
      | None =>
          match v with
          | VArr elems =>
              if String.eqb name "length" then Returns (VNum (Z.of_nat (length elems)))
              else Returns VUndefined
          | VStr s =>
              if String.eqb name "length" then Returns (VNum (Z.of_nat (String.length s)))
              else Returns VUndefined
          | _ => Returns VUndefined
          end
      end
  end.

(** [a || b] *)
Definition or_else (a b : jsval) : jsval := if truthy a then a else b.

(** [Object.entries(v)]; the order of the entries is that of
    [map_to_list], the registry only builds a [Map] from them. *)
Definition Object_entries (v : jsval) : result (list (string * jsval)) :=
  match v with
  | VUndefined | VNull => Throws TypeError
  | _ => Returns (map_to_list (own_properties v))
  end.

(** [new Map(entries)]: a later entry replaces an earlier one of the same
    key. *)
Definition new_Map (entries : list (string * jsval)) : gmap string jsval :=
  foldl (fun m kv => <[kv.1 := kv.2]> m) ∅ entries.

(** [Object.fromEntries(map)] *)
Definition Object_fromEntries (map : gmap string jsval) : jsval := VObj map.

(** The string a value turns into inside a template literal.  An object
    answers "[object Object]" unless it carries a [toString] property of
    its own, which is then not a function.  A number answers its decimal
    digits, which is what JavaScript prints for the integers up to 2^53;
    the rounded digits and the exponent it prints for larger ones are not
    modelled. *)
Fixpoint ToString (v : jsval) : result string :=
  match v with
  | VUndefined => Returns "undefined"
  | VNull => Returns "null"
  | VBool true => Returns "true"
  | VBool false => Returns "false"
  | VNum n => Returns (pretty n)
  | VStr s => Returns s
  | VArr elems =>
      (fix join (l : list jsval) : result string :=
         match l with
         | [] => Returns ""
         | x :: rest =>
             first ← match x with
                     | VUndefined | VNull => Returns ""
                     | _ => ToString x
                     end;
             match rest with
             | [] => Returns first
             | _ => others ← join rest; Returns (first +:+ "," +:+ others)
             end
         end) elems
  | VObj props =>
      match props !! "toString" with
      | Some _ => Throws TypeError
      | None => Returns "[object Object]"
      end
  | VCycle _ => Returns "[object Object]"
  end.

(** ** Blocks *)

(** A block of the workspace, as far as the registry looks at it:
    [block.type], [block.getFieldValue(name)], [block.getVariableType()],
    and the block object itself, which a diagnostic keeps. *)
Module Block.
Record t := {
  type : string;
  getFieldValue : string -> string;
  getVariableType : string;
  self : jsval
}.
End Block.

(** ** The registry *)

Record TypeManager := {
  variableTypes : gmap string jsval;  (* Map of variable name to type *)
  blockTypes : gmap string jsval;     (* Map of block ID to type information *)
  typeErrors : jsval                  (* Array of type errors *)
}.

Definition set_variableTypes (m : gmap string jsval) (this : TypeManager) :=
  {| variableTypes := m; blockTypes := blockTypes this; typeErrors := typeErrors this |}.
Definition set_blockTypes (m : gmap string jsval) (this : TypeManager) :=
  {| variableTypes := variableTypes this; blockTypes := m; typeErrors := typeErrors this |}.
Definition set_typeErrors (v : jsval) (this : TypeManager) :=
  {| variableTypes := variableTypes this; blockTypes := blockTypes this; typeErrors := v |}.

(** A method that may change the registry and may throw; what it did to
    the registry before throwing stays done. *)
Definition M (A : Type) : Type := TypeManager -> result A * TypeManager.

#[global] Instance M_ret : MRet M := fun A a this => (Returns a, this).
#[global] Instance M_bind : MBind M := fun A B k m this =>
  match m this with
  | (Returns a, this') => k a this'
  | (Throws e, this') => (Throws e, this')
  end.

Definition lift {A} (r : result A) : M A := fun this => (r, this).
Definition update (f : TypeManager -> TypeManager) : M unit :=
  fun this => (Returns (), f this).
Definition read {A} (f : TypeManager -> A) : M A :=
  fun this => (Returns (f this), this).

(** Runs the plumbing of [M] in a goal. *)
Ltac run := unfold mbind, mret, M_bind, M_ret, read, lift, update; cbn beta iota.

(** [try { body } catch (error) { handler }] *)
Definition try_catch {A} (body : M A) (handler : exn -> M A) : M A :=
  fun this =>
    match body this with
    | (Returns a, this') => (Returns a, this')
    | (Throws e, this') => handler e this'
    end.

(** [for (const x of xs) { body }] *)
Fixpoint for_of {A} (xs : list A) (body : A -> M unit) : M unit :=
  match xs with
  | [] => mret ()
  | x :: rest => _ ← body x; for_of rest body
  end.

(** [constructor] *)
Definition new_TypeManager : TypeManager :=
  {| variableTypes := ∅; blockTypes := ∅; typeErrors := VArr [] |}.

(** [{type: type, scope: scope, declared: true}] *)
Definition variable_record (type scope : string) : jsval :=
  VObj (<["type" := VStr type]>
          (<["scope" := VStr scope]> {["declared" := VBool true]})).

(** [registerVariable(variableName, type, scope)]; a caller that leaves
    [scope] out passes ['local']. *)
Definition registerVariable (variableName type scope : string) : M unit :=
  update (fun this =>
    set_variableTypes
      (<[variableName := variable_record type scope]> (variableTypes this)) this).

Definition getVariableType (this : TypeManager) (variableName : string) : jsval :=
  let varInfo := default VUndefined (variableTypes this !! variableName) in
  if truthy varInfo then
    match get varInfo "type" with
    | Returns type => type
    | Throws _ => VUndefined
    end
  else VNull.

Definition isVariableDeclared (this : TypeManager) (variableName : string) : bool :=
  bool_decide (is_Some (variableTypes this !! variableName)).

Definition registerBlockType (blockId : string) (typeInfo : jsval) : M unit :=
  update (fun this => set_blockTypes (<[blockId := typeInfo]> (blockTypes this)) this).

Definition getBlockType (this : TypeManager) (blockId : string) : jsval :=
  or_else (default VUndefined (blockTypes this !! blockId)) VNull.

(** [this.typeErrors.push({block, message, severity: 'error'})] *)
Definition error_record (block : Block.t) (message : string) : jsval :=
  VObj (<["block" := Block.self block]>
          (<["message" := VStr message]> {["severity" := VStr "error"]})).

Definition push_error (block : Block.t) (message : string) : M unit :=
  fun this =>
    match typeErrors this with
    | VArr errors =>
        (Returns (), set_typeErrors (VArr (errors ++ [error_record block message])) this)
    | _ => (Throws TypeError, this)
    end.

Definition checkBlockTypeErrors (block : Block.t) : M unit :=
  let blockType := Block.type block in
  (* Check typed variable getters *)
  _ ← (if String.eqb blockType "typed_lexical_variable_get" then
         let varName := Block.getFieldValue block "VAR" in
         let expectedType := Block.getVariableType block in
         actualType ← read (fun this => getVariableType this varName);
         if truthy actualType then
           compatible ← lift (areTypesCompatible (VStr expectedType) actualType);
           if negb compatible then
             got ← lift (ToString actualType);
             push_error block
               ("Type mismatch: expected " +:+ expectedType +:+ ", got " +:+ got
                  +:+ " for variable " +:+ varName)
           else mret ()
         else mret ()
       else mret ());
  (* Check typed variable setters *)
  _ ← (if String.eqb blockType "typed_lexical_variable_set" then
         let varName := Block.getFieldValue block "VAR" in
         let expectedType := Block.getVariableType block in
         actualType ← read (fun this => getVariableType this varName);
         if truthy actualType then
           compatible ← lift (areTypesCompatible actualType (VStr expectedType));
           if negb compatible then
             got ← lift (ToString actualType);
             push_error block
               ("Type mismatch: cannot assign " +:+ expectedType +:+ " to variable "
                  +:+ varName +:+ " of type " +:+ got)
           else mret ()
         else mret ()
       else mret ());
  (* Check typed variable declarations *)
  if String.eqb blockType "typed_global_declaration"
     || String.eqb blockType "typed_local_declaration_statement" then
    let varName :=
      Block.getFieldValue block
        (if String.eqb blockType "typed_global_declaration" then "NAME" else "VAR") in
    let declaredType := Block.getFieldValue block "TYPE" in
    (* Check if variable is already declared *)
    declared ← read (fun this => isVariableDeclared this varName);
    if declared : bool then
      push_error block ("Variable " +:+ varName +:+ " is already declared")
    else
      (* Register the variable *)
      registerVariable varName declaredType
        (if String.eqb blockType "typed_global_declaration" then "global" else "local")
  else mret ().

(** [checkTypeErrors()]; [blocks] is what
    [this.workspace.getAllBlocks(false)] answers. *)
Definition checkTypeErrors (blocks : list Block.t) : M jsval :=
  _ ← update (set_typeErrors (VArr []));
  _ ← for_of blocks checkBlockTypeErrors;
  read typeErrors.

Definition getTypeErrors (this : TypeManager) : jsval := typeErrors this.

Definition clearTypeErrors : M unit := update (set_typeErrors (VArr [])).

(** [getVariableTypeSummary()].  Assigning to [summary["__proto__"]]
    makes no property. *)
Definition getVariableTypeSummary (this : TypeManager) : jsval :=
  VObj (delete "__proto__" (variableTypes this)).

Definition reset : M unit :=
  update (fun _ => new_TypeManager).

(** ** The four kinds of typed variable blocks

    The blocks as [src/blocks/typed-variables.js] defines them.  [init]
    makes the field [fieldVar_] and hands it the block
    ([this.fieldVar_.setBlock(this)]): the field refers back to the
    block that holds it.  The declarations answer [getVariableType()]
    from their TYPE field, the getter and the setter from
    [fieldVar_.getType()].  The other properties the editor gives a
    block are left out. *)
Definition block_object (type varType : string) : jsval :=
  VObj (<["type" := VStr type]>
          {["fieldVar_" :=
              VObj (<["type" := VStr varType]> {["block_" := VCycle 1]})]}).

Definition field_values (values : list (string * string)) (name : string) : string :=
  default EmptyString ((list_to_map values : gmap string string) !! name).

Definition typed_global_declaration (name type : string) : Block.t :=
  {| Block.type := "typed_global_declaration";
     Block.getFieldValue := field_values [("NAME", name); ("TYPE", type)];
     Block.getVariableType := type;
     Block.self := block_object "typed_global_declaration" "any" |}.

Definition typed_local_declaration_statement (name type : string) : Block.t :=
  {| Block.type := "typed_local_declaration_statement";
     Block.getFieldValue := field_values [("VAR", name); ("TYPE", type)];
     Block.getVariableType := type;
     Block.self := block_object "typed_local_declaration_statement" "any" |}.

Definition typed_lexical_variable_get (name type : string) : Block.t :=
  {| Block.type := "typed_lexical_variable_get";
     Block.getFieldValue := field_values [("VAR", name)];
     Block.getVariableType := type;
     Block.self := block_object "typed_lexical_variable_get" type |}.

Definition typed_lexical_variable_set (name type : string) : Block.t :=
  {| Block.type := "typed_lexical_variable_set";
     Block.getFieldValue := field_values [("VAR", name)];
     Block.getVariableType := type;
     Block.self := block_object "typed_lexical_variable_set" type |}.

(** What the scan reads off a block. *)
Definition is_declaration (block : Block.t) : bool :=
  String.eqb (Block.type block) "typed_global_declaration"
  || String.eqb (Block.type block) "typed_local_declaration_statement".

Definition is_reference (block : Block.t) : bool :=
  String.eqb (Block.type block) "typed_lexical_variable_get"
  || String.eqb (Block.type block) "typed_lexical_variable_set".

Definition declared_name (block : Block.t) : string :=
  Block.getFieldValue block
    (if String.eqb (Block.type block) "typed_global_declaration" then "NAME" else "VAR").

Definition declared_scope (block : Block.t) : string :=
  if String.eqb (Block.type block) "typed_global_declaration" then "global" else "local".

(** What a reader of the diagnostics looks at:
    [error.message.includes(fragment)] and [error.severity]. *)
Definition mentions (fragment : string) (error : jsval) : bool :=
  match get error "message" with
  | Returns (VStr message) => str_includes message fragment
  | _ => false
  end.

Definition severity (error : jsval) : jsval :=
  match get error "severity" with
  | Returns v => v
  | Throws _ => VUndefined
  end.

(** ** JSON *)

(** [JSON.stringify] walks the value and keeps the objects it is inside
    of on a stack; meeting one of them again is a TypeError. *)
Fixpoint has_cycle (v : jsval) : bool :=
  match v with
  | VCycle _ => true
  | VArr elems => existsb has_cycle elems
  | VObj props => map_fold (fun _ x found => has_cycle x || found) false props
  | _ => false
  end.

(** What the text keeps of a value: a property holding [undefined] is
    left out of its object, an element holding [undefined] is written
    [null].  [None] is [undefined]. *)
Fixpoint json_image (v : jsval) : option jsval :=
  match v with
  | VUndefined => None
  | VCycle _ => None
  | VArr elems => Some (VArr ((fun x => default VNull (json_image x)) <$> elems))
  | VObj props => Some (VObj (omap json_image props))
  | _ => Some v
  end.

Definition SerializeJSONProperty (v : jsval) : result (option jsval) :=
  if has_cycle v then Throws TypeError else Returns (json_image v).

(** The values a JSON text denotes: no [undefined] and no cycle in
    them.  The numbers of [jsval] are the integers, which the text gives
    back; NaN, the infinities and negative zero, which [JSON.stringify]
    writes as [null] and [0], are no [jsval]. *)
Fixpoint is_json (v : jsval) : bool :=
  match v with
  | VUndefined | VCycle _ => false
  | VArr elems => forallb is_json elems
  | VObj props => map_fold (fun _ x ok => is_json x && ok) true props
  | _ => true
  end.

Section JSON.
(** The text of a JSON value as [JSON.stringify(_, null, 2)] lays it
    out, and the value [JSON.parse] reads from a text, [None] when it
    throws a SyntaxError. *)
Variable JSON_text : jsval -> string.
Variable JSON_parse : string -> option jsval.

(** [JSON.stringify(value, null, 2)] *)
Definition JSON_stringify (value : jsval) : result jsval :=
  image ← SerializeJSONProperty value;
  match image with
  | Some j => Returns (VStr (JSON_text j))
  | None => Returns VUndefined
  end.

Definition exportTypeInfo (this : TypeManager) : result jsval :=
  JSON_stringify
    (VObj (<["variableTypes" := Object_fromEntries (variableTypes this)]>
             (<["blockTypes" := Object_fromEntries (blockTypes this)]>
                {["typeErrors" := typeErrors this]}))).

Definition importTypeInfo (jsonString : string) : M unit :=
  try_catch
    (data ← lift (match JSON_parse jsonString with
                  | Some v => Returns v
                  | None => Throws SyntaxError
                  end);
     v ← lift (get data "variableTypes");
     entries ← lift (Object_entries (or_else v (VObj ∅)));
     _ ← update (set_variableTypes (new_Map entries));
     b ← lift (get data "blockTypes");
     entries ← lift (Object_entries (or_else b (VObj ∅)));
     _ ← update (set_blockTypes (new_Map entries));
     e ← lift (get data "typeErrors");
     update (set_typeErrors (or_else e (VArr []))))
    (fun error =>
       (* console.error('Failed to import type information:', error) *)
       mret ()).
End JSON.

(** The size of a value, every element and property counted. *)
Fixpoint jsize (v : jsval) : nat :=
  match v with
  | VArr elems => S (foldr (fun x n => S (jsize x + n)) 0 elems)
  | VObj props => S (map_fold (fun _ x n => S (jsize x + n)) 0 props)
  | _ => 1
  end.

(** ** A reader and a writer of JSON text

    Compact JSON: no white space, no fraction or exponent, no [\u]
    escape.  They stand for [JSON.parse] and for the layout of
    [JSON.stringify] where a statement needs the two functions at
    hand. *)
Module Compact.

(** The double quote character. *)
Definition dquote : ascii := Eval cbv in ascii_of_nat 34.

Fixpoint escape (s : string) : string :=
  match s with
  | EmptyString => EmptyString
  | String c rest =>
      if Ascii.eqb c dquote then String "\" (String dquote (escape rest))
      else if Ascii.eqb c "\" then String "\" (String "\" (escape rest))
      else String c (escape rest)
  end.

Definition write_string (s : string) : string :=
  String dquote (escape s +:+ String dquote EmptyString).

Definition write_number (n : Z) : string :=
  NilEmpty.string_of_int (Z.to_int n).

Fixpoint join (pieces : list string) : string :=
  match pieces with
  | [] => EmptyString
  | [x] => x
  | x :: rest => x +:+ String "," (join rest)
  end.

Fixpoint write (v : jsval) : string :=
  match v with
  | VUndefined | VCycle _ | VNull => "null"
  | VBool true => "true"
  | VBool false => "false"
  | VNum n => write_number n
  | VStr s => write_string s
  | VArr elems => String "[" (join (write <$> elems) +:+ "]")
  | VObj props =>
      String "{"
        (join (map_fold (fun k x members =>
                           (write_string k +:+ String ":" (write x)) :: members)
                        [] props) +:+ "}")
  end.

(** The characters of a string up to its closing quote, and what
    follows the quote. *)
Fixpoint read_string (s : string) : option (string * string) :=
  match s with
  | EmptyString => None
  | String c rest =>
      if Ascii.eqb c dquote then Some (EmptyString, rest)
      else if Ascii.eqb c "\" then
        match rest with
        | String d rest' =>
            if Ascii.eqb d dquote || Ascii.eqb d "\" then
              match read_string rest' with
              | Some (chars, after) => Some (String d chars, after)
              | None => None
              end
            else None
        | EmptyString => None
        end
      else
        match read_string rest with
        | Some (chars, after) => Some (String c chars, after)
        | None => None
        end
  end.

Definition is_number_char (c : ascii) : bool :=
  Ascii.eqb c "-" || (Nat.leb 48 (nat_of_ascii c) && Nat.leb (nat_of_ascii c) 57).

Fixpoint number_chars (s : string) : string * string :=
  match s with
  | EmptyString => (EmptyString, EmptyString)
  | String c rest =>
      if is_number_char c then
        let (token, after) := number_chars rest in (String c token, after)
      else (EmptyString, s)
  end.

Definition read_number (s : string) : option (Z * string) :=
  let (token, after) := number_chars s in
  match NilEmpty.int_of_string token with
  | Some d =>
      let n := Z.of_int d in
      if String.eqb (write_number n) token then Some (n, after) else None
  | None => None
  end.

Definition read_keyword (word : string) (v : jsval) (s : string)
  : option (jsval * string) :=
  if String.prefix word s
  then Some (v, String.substring (String.length word)
                  (String.length s - String.length word) s)
  else None.

Fixpoint read_value (fuel : nat) (s : string) : option (jsval * string) :=
  match fuel with
  | O => None
  | S fuel =>
      match s with
      | EmptyString => None
      | String c rest =>
          if Ascii.eqb c "n" then read_keyword "null" VNull s
          else if Ascii.eqb c "t" then read_keyword "true" (VBool true) s
          else if Ascii.eqb c "f" then read_keyword "false" (VBool false) s
          else if Ascii.eqb c dquote then
            match read_string rest with
            | Some (chars, after) => Some (VStr chars, after)
            | None => None
            end
          else if Ascii.eqb c "[" then
            match rest with
            | String c' after =>
                if Ascii.eqb c' "]" then Some (VArr [], after)
                else
                  match read_elements fuel rest with
                  | Some (elems, after') => Some (VArr elems, after')
                  | None => None
                  end
            | EmptyString => None
            end
          else if Ascii.eqb c "{" then
            match rest with
            | String c' after =>
                if Ascii.eqb c' "}" then Some (VObj ∅, after)
                else
                  match read_members fuel rest with
                  | Some (members, after') => Some (VObj (new_Map members), after')
                  | None => None
                  end
            | EmptyString => None
            end
          else if is_number_char c then
            match read_number s with
            | Some (n, after) => Some (VNum n, after)
            | None => None
            end
          else None
      end
  end
with read_elements (fuel : nat) (s : string) : option (list jsval * string) :=
  match fuel with
  | O => None
  | S fuel =>
      match read_value fuel s with
      | Some (v, String c after) =>
          if Ascii.eqb c "," then
            match read_elements fuel after with
            | Some (more, after') => Some (v :: more, after')
            | None => None
            end
          else if Ascii.eqb c "]" then Some ([v], after)
          else None
      | _ => None
      end
  end
with read_members (fuel : nat) (s : string)
  : option (list (string * jsval) * string) :=
  match fuel with
  | O => None
  | S fuel =>
      match s with
      | String c rest =>
          if negb (Ascii.eqb c dquote) then None else
          match read_string rest with
          | Some (key, String colon rest') =>
              if negb (Ascii.eqb colon ":") then None else
              match read_value fuel rest' with
              | Some (v, String c after) =>
                  if Ascii.eqb c "," then
                    match read_members fuel after with
                    | Some (more, after') => Some ((key, v) :: more, after')
                    | None => None
                    end
                  else if Ascii.eqb c "}" then Some ([(key, v)], after)
                  else None
              | _ => None
              end
          | _ => None
          end
      | _ => None
      end
  end.

Definition parse (s : string) : option jsval :=
  match read_value (S (String.length s)) s with
  | Some (v, EmptyString) => Some v
  | _ => None
  end.

(** Notions the facts about the reader and the writer use. *)

Fixpoint all_number_chars (s : string) : bool :=
  match s with
  | EmptyString => true
  | String c rest => is_number_char c && all_number_chars rest
  end.

(** What may stand after a number: nothing, or a character that is not
    part of a number. *)
Definition follows (rest : string) : Prop :=
  match rest with
  | EmptyString => True
  | String c _ => is_number_char c = false
  end.

Definition elements_size (elems : list jsval) : nat :=
  foldr (fun x n => S (jsize x + n)) 0 elems.

Definition members_size (members : list (string * jsval)) : nat :=
  foldr (fun kv n => S (jsize kv.2 + n)) 0 members.

Definition write_member (kv : string * jsval) : string :=
  write_string kv.1 +:+ String ":" (write kv.2).

(** The reader reads [v] back from its text, whatever comes after. *)
Definition reads (v : jsval) : Prop :=
  forall fuel rest, jsize v <= fuel -> follows rest ->
    read_value fuel (write v +:+ rest) = Some (v, rest).

End Compact.

(** ** The compatibility rules as the specification words them

    Six rules, applied in order, the first that matches decides:
    (1) either operand is "any": compatible; (2) the operands are the
    same text: compatible; (3) both operands are in the numeric set:
    compatible; (4) both end with the array suffix: strip it from each
    and decide on the bases; (5) both end with the pointer suffix: strip
    it from each and decide on the bases; (6) otherwise incompatible. *)
Definition numeric_set : list string := ["number"; "int"; "float"; "double"].

Definition rule1 (t s : string) : Prop := t = "any" \/ s = "any".
Definition rule2 (t s : string) : Prop := t = s.
Definition rule3 (t s : string) : Prop := In t numeric_set /\ In s numeric_set.
Definition both_end_with (suffix t s : string) : Prop :=
  exists tb sb, t = tb +:+ suffix /\ s = sb +:+ suffix.

Inductive spec_compatible : string -> string -> bool -> Prop :=
| spec_any t s :
    rule1 t s -> spec_compatible t s true
| spec_identical t s :
    ~ rule1 t s -> rule2 t s -> spec_compatible t s true
| spec_numeric t s :
    ~ rule1 t s -> ~ rule2 t s -> rule3 t s -> spec_compatible t s true
| spec_array tb sb b :
    let t := tb +:+ "[]" in
    let s := sb +:+ "[]" in
    ~ rule1 t s -> ~ rule2 t s -> ~ rule3 t s ->
    spec_compatible tb sb b -> spec_compatible t s b
| spec_pointer tb sb b :
    let t := tb +:+ "*" in
    let s := sb +:+ "*" in
    ~ rule1 t s -> ~ rule2 t s -> ~ rule3 t s -> ~ both_end_with "[]" t s ->
    spec_compatible tb sb b -> spec_compatible t s b
| spec_otherwise t s :
    ~ rule1 t s -> ~ rule2 t s -> ~ rule3 t s ->
    ~ both_end_with "[]" t s -> ~ both_end_with "*" t s ->
    spec_compatible t s false.

(** ** Notions the statements use *)

(** One round of [areTypesCompatible] on two strings, [rec] standing for
    the recursive call. *)
Definition str_step (rec : jsval -> jsval -> result bool) (t s : string) : result bool :=
  if String.eqb t "any" || String.eqb s "any" then Returns true
  else if String.eqb t s then Returns true
  else if includes numericTypes (VStr t) && includes numericTypes (VStr s) then Returns true
  else if endsWith t "[]" && endsWith s "[]" then
    rec (VStr (slice t 0 (-2))) (VStr (slice s 0 (-2)))
  else if endsWith t "*" && endsWith s "*" then
    rec (VStr (slice t 0 (-1))) (VStr (slice s 0 (-1)))
  else Returns false.

(** A method leaves the record of [name] in the variable map alone. *)
Definition preserves {A} (name : string) (m : M A) : Prop :=
  forall this, variableTypes (m this).2 !! name = variableTypes this !! name.

(** The registry as the scan has it when it has gone through [blocks]. *)
Definition scanned (blocks : list Block.t) (this : TypeManager) : TypeManager :=
  (for_of blocks checkBlockTypeErrors (set_typeErrors (VArr []) this)).2.

(** The diagnostic of a second declaration. *)
Definition already_declared (block : Block.t) : jsval :=
  error_record block ("Variable " +:+ declared_name block +:+ " is already declared").

(** What the two JSON functions owe each other: reading the text of a
    JSON value gives the value back. *)
Definition JSON_law (JSON_text : jsval -> string) (JSON_parse : string -> option jsval)
  : Prop :=
  forall v, is_json v = true -> JSON_parse (JSON_text v) = Some v.

(** The properties of the object [exportTypeInfo] hands to
    [JSON.stringify]. *)
Definition exported (this : TypeManager) : gmap string jsval :=
  <["variableTypes" := Object_fromEntries (variableTypes this)]>
    (<["blockTypes" := Object_fromEntries (blockTypes this)]>
       {["typeErrors" := typeErrors this]}).

(** The registry [importTypeInfo] leaves when the text reads as an object
    of properties [data]. *)
Definition imported (data : gmap string jsval) : TypeManager :=
  {| variableTypes :=
       own_properties (or_else (default VUndefined (data !! "variableTypes")) (VObj ∅));
     blockTypes :=
       own_properties (or_else (default VUndefined (data !! "blockTypes")) (VObj ∅));
     typeErrors := or_else (default VUndefined (data !! "typeErrors")) (VArr []) |}.


(** Registries the statements are tried on. *)

(** [registerVariable('counter', 'number', 'global')] and
    [registerBlockType('block1', {kind: 'declaration', inferred: null})]
    on a new registry. *)
Definition plain_registry : TypeManager :=
  (registerBlockType "block1"
     (VObj (<["kind" := VStr "declaration"]> {["inferred" := VNull]}))
     (registerVariable "counter" "number" "global" new_TypeManager).2).2.

(** [registerBlockType('block1', {kind: 'declaration', inferred: undefined})]
    on a new registry. *)
Definition registry_with_undefined : TypeManager :=
  (registerBlockType "block1"
     (VObj (<["kind" := VStr "declaration"]> {["inferred" := VUndefined]}))
     new_TypeManager).2.

(** A new registry after [checkTypeErrors()] on a workspace of a
    declaration of [counter : number] and a setter of [counter] to a
    string. *)
Definition registry_with_diagnostic : TypeManager :=
  (checkTypeErrors [typed_local_declaration_statement "counter" "number";
                    typed_lexical_variable_set "counter" "string"] new_TypeManager).2.

(** ** The type dropdown field

    [src/fields/field_type_dropdown.js], the three methods of
    [FieldTypeDropdown] that compute on the selected type; [value] is
    what [this.getValue()] answers. *)
Module FieldTypeDropdown.

Definition isArrayType (value : string) : bool :=
  endsWith value "[]" || String.eqb value "array".

Definition isPointerType (value : string) : bool :=
  endsWith value "*".

Definition getBaseType (value : string) : string :=
  if endsWith value "[]" then slice value 0 (-2)
  else if endsWith value "*" then slice value 0 (-1)
  else value.

End FieldTypeDropdown.

(** ** Notions the further statements use *)

(** The two messages of a type mismatch. *)
Definition getter_message (expected got name : string) : string :=
  "Type mismatch: expected " +:+ expected +:+ ", got " +:+ got
    +:+ " for variable " +:+ name.

Definition setter_message (assigned name got : string) : string :=
  "Type mismatch: cannot assign " +:+ assigned +:+ " to variable "
    +:+ name +:+ " of type " +:+ got.

(** The blocks [checkBlockTypeErrors] has a branch for. *)
Definition recognized (block : Block.t) : bool :=
  is_reference block || is_declaration block.

(** Every type the registry answers is a string, as [registerVariable]
    called with a string leaves it. *)
Definition types_are_strings (this : TypeManager) : Prop :=
  forall name, getVariableType this name = VNull \/
               exists type, getVariableType this name = VStr type.

(** What one call of [checkBlockTypeErrors] can do to the registry:
    nothing, push one diagnostic that holds the block, or register the
    variable a declaration declares. *)
Inductive scan_step (block : Block.t) (this : TypeManager)
  : result unit * TypeManager -> Prop :=
| step_none r : scan_step block this (r, this)
| step_push message errors :
    typeErrors this = VArr errors ->
    scan_step block this
      (Returns (),
       set_typeErrors (VArr (errors ++ [error_record block message])) this)
| step_register :
    is_declaration block = true ->
    variableTypes this !! declared_name block = None ->
    scan_step block this
      (registerVariable (declared_name block) (Block.getFieldValue block "TYPE")
         (declared_scope block) this).

(** The array and pointer markers a type name ends with, the innermost
    first. *)
Inductive marker := Array | Pointer.

Definition marker_suffix (m : marker) : string :=
  match m with
  | Array => "[]"
  | Pointer => "*"
  end.

Fixpoint wrap (base : string) (markers : list marker) : string :=
  match markers with
  | [] => base
  | m :: rest => wrap (base +:+ marker_suffix m) rest
  end.

Definition is_string (v : jsval) : bool :=
  match v with
  | VStr _ => true
  | _ => false
  end.

(** The registry after [importTypeInfo] of a text that reads as
    [{variableTypes: {total: {type: 5}}}]. *)
Definition registry_with_number_type : TypeManager :=
  imported {["variableTypes" := VObj {["total" := VObj {["type" := VNum 5]}]}]}.


(** * Strings *)
Lemma length_app (a b : string) :
  String.length (a +:+ b) = String.length a + String.length b.
Proof. induction a as [|c a IH]; simpl; [done | by rewrite IH]. Qed.

Lemma substring_all (s : string) : String.substring 0 (String.length s) s = s.
Proof. induction s as [|c s IH]; simpl; [done | by rewrite IH]. Qed.

Lemma substring_app_r (a b : string) :
  String.substring (String.length a) (String.length b) (a +:+ b) = b.
Proof. induction a as [|c a IH]; simpl; [apply substring_all | done]. Qed.

Lemma substring_app_l (a b : string) :
  String.substring 0 (String.length a) (a +:+ b) = a.
Proof.
  induction a as [|c a IH]; simpl.
  - by destruct b.
  - by rewrite IH.
Qed.

Lemma substring_split (s : string) (n : nat) :
  n <= String.length s ->
  String.substring 0 n s +:+ String.substring n (String.length s - n) s = s.
Proof.
  revert n. induction s as [|c s IH]; intros [|n] Hn; simpl in *; try lia.
  - done.
  - change (String c (String.substring 0 (String.length s) s) = String c s).
    f_equal. apply substring_all.
  - change (String c (String.substring 0 n s +:+
              String.substring n (String.length s - n) s) = String c s).
    f_equal. apply IH. lia.
Qed.

Lemma length_substring_0 (s : string) (n : nat) :
  n <= String.length s -> String.length (String.substring 0 n s) = n.
Proof.
  revert n. induction s as [|c s IH]; intros [|n] Hn; simpl in *; try lia.
  rewrite IH; lia.
Qed.

Lemma slice_drop_last (s : string) (k : nat) :
  0 < k ->
  slice s 0 (- Z.of_nat k) = String.substring 0 (String.length s - k) s.
Proof.
  intros Hk. unfold slice, clamp_index.
  replace (0 <? 0)%Z with false by done.
  replace (- Z.of_nat k <? 0)%Z with true by (symmetry; apply Z.ltb_lt; lia).
  simpl Nat.min. rewrite Nat.sub_0_r. f_equal. lia.
Qed.

Lemma endsWith_app (b x : string) : endsWith (b +:+ x) x = true.
Proof.
  unfold endsWith. rewrite length_app.
  destruct (Nat.ltb_spec (String.length b + String.length x) (String.length x)); [lia|].
  replace (String.length b + String.length x - String.length x) with (String.length b) by lia.
  rewrite substring_app_r. apply String.eqb_refl.
Qed.

Lemma endsWith_inv (s x : string) :
  0 < String.length x ->
  endsWith s x = true ->
  s = slice s 0 (- Z.of_nat (String.length x)) +:+ x /\
  String.length (slice s 0 (- Z.of_nat (String.length x))) < String.length s.
Proof.
  intros Hx. unfold endsWith.
  destruct (Nat.ltb_spec (String.length s) (String.length x)) as [|Hle]; [done|].
  intros Heq%String.eqb_eq. rewrite slice_drop_last by done.
  split.
  - rewrite <- (substring_split s (String.length s - String.length x)) at 1 by lia.
    f_equal.
    replace (String.length s - (String.length s - String.length x))
      with (String.length x) by lia.
    exact Heq.
  - rewrite length_substring_0; lia.
Qed.

Lemma slice_app (b x : string) :
  0 < String.length x ->
  slice (b +:+ x) 0 (- Z.of_nat (String.length x)) = b.
Proof.
  intros Hx. rewrite slice_drop_last by done. rewrite length_app.
  replace (String.length b + String.length x - String.length x) with (String.length b) by lia.
  apply substring_app_l.
Qed.

Lemma endsWith_spec (s x : string) :
  0 < String.length x ->
  endsWith s x = true <-> exists b, s = b +:+ x.
Proof.
  intros Hx. split.
  - intros H. eexists. apply (endsWith_inv _ _ Hx H).
  - intros [b ->]. apply endsWith_app.
Qed.

(** * areTypesCompatible on two strings *)

Lemma fuel_S_str n t s :
  areTypesCompatible_fuel (S n) (VStr t) (VStr s) =
  str_step (areTypesCompatible_fuel n) t s.
Proof.
  unfold str_step. cbn [areTypesCompatible_fuel strict_eq js_endsWith].
  destruct (String.eqb t "any" || String.eqb s "any"); [done|].
  destruct (String.eqb t s); [done|].
  destruct (includes numericTypes (VStr t) && includes numericTypes (VStr s)); [done|].
  destruct (endsWith t "[]"), (endsWith s "[]"), (endsWith t "*"), (endsWith s "*"); done.
Qed.

Lemma endsWith_shorter (s x : string) :
  0 < String.length x -> endsWith s x = true ->
  String.length (slice s 0 (- Z.of_nat (String.length x))) < String.length s.
Proof. intros Hx H. apply (endsWith_inv _ _ Hx H). Qed.

Lemma array_shorter (s : string) :
  endsWith s "[]" = true -> String.length (slice s 0 (-2)) < String.length s.
Proof. apply (endsWith_shorter s "[]"). simpl. lia. Qed.

Lemma pointer_shorter (s : string) :
  endsWith s "*" = true -> String.length (slice s 0 (-1)) < String.length s.
Proof. apply (endsWith_shorter s "*"). simpl. lia. Qed.

Lemma fuel_enough n m t s :
  Nat.min (String.length t) (String.length s) < n ->
  Nat.min (String.length t) (String.length s) < m ->
  areTypesCompatible_fuel n (VStr t) (VStr s) =
  areTypesCompatible_fuel m (VStr t) (VStr s).
Proof.
  revert m t s. induction n as [|n IH]; intros [|m] t s Hn Hm; try lia.
  rewrite !fuel_S_str. unfold str_step.
  repeat match goal with |- (if ?c then _ else _) = _ => destruct c eqn:? end; try done.
  - apply andb_true_iff in Heqb2 as [Ht Hs].
    apply array_shorter in Ht, Hs. apply IH; lia.
  - apply andb_true_iff in Heqb3 as [Ht Hs].
    apply pointer_shorter in Ht, Hs. apply IH; lia.
Qed.

Lemma areTypesCompatible_str t s :
  areTypesCompatible (VStr t) (VStr s) = str_step areTypesCompatible t s.
Proof.
  unfold areTypesCompatible at 1. cbn [depth_bound]. rewrite fuel_S_str.
  unfold str_step.
  repeat match goal with |- (if ?c then _ else _) = _ => destruct c eqn:? end; try done.
  - apply andb_true_iff in Heqb2 as [Ht Hs].
    apply array_shorter in Ht, Hs. apply fuel_enough; cbn [depth_bound]; lia.
  - apply andb_true_iff in Heqb3 as [Ht Hs].
    apply pointer_shorter in Ht, Hs. apply fuel_enough; cbn [depth_bound]; lia.
Qed.

(** C6: the wildcard is compatible with every type string, on either
    side, and every type string is compatible with itself:
    [areTypesCompatible("any", T)], [areTypesCompatible(T, "any")] and
    [areTypesCompatible(T, T)] all return [true]. *)
Theorem any_and_reflexive (T : string) :
  areTypesCompatible (VStr "any") (VStr T) = Returns true /\
  areTypesCompatible (VStr T) (VStr "any") = Returns true /\
  areTypesCompatible (VStr T) (VStr T) = Returns true.
Proof.
  rewrite !areTypesCompatible_str. unfold str_step.
  rewrite (String.eqb_refl "any"), (String.eqb_refl T), orb_true_r.
  split; [reflexivity|]. split; [reflexivity|].
  destruct (String.eqb T "any"); reflexivity.
Qed.

Lemma includes_numeric_str t :
  includes numericTypes (VStr t) = true <-> In t numeric_set.
Proof.
  unfold includes, numericTypes, numeric_set. cbn [existsb strict_eq In].
  rewrite !orb_true_iff, !String.eqb_eq. intuition congruence.
Qed.

Lemma fuel_sym n t s :
  areTypesCompatible_fuel n (VStr t) (VStr s) =
  areTypesCompatible_fuel n (VStr s) (VStr t).
Proof.
  revert t s. induction n as [|n IH]; intros t s; [done|].
  rewrite !fuel_S_str. unfold str_step.
  rewrite (orb_comm (String.eqb t "any")), (String.eqb_sym t s).
  rewrite (andb_comm (includes _ (VStr t))).
  rewrite (andb_comm (endsWith t "[]")), (andb_comm (endsWith t "*")).
  rewrite (IH (slice t 0 (-2))), (IH (slice t 0 (-1))). reflexivity.
Qed.

(** C5: [areTypesCompatible] is symmetric on type strings:
    [areTypesCompatible(a, b)] and [areTypesCompatible(b, a)] give the
    same result, whatever the two strings. *)
Theorem areTypesCompatible_symmetric (a b : string) :
  areTypesCompatible (VStr a) (VStr b) = areTypesCompatible (VStr b) (VStr a).
Proof.
  unfold areTypesCompatible. cbn [depth_bound].
  rewrite (fuel_sym _ b a).
  apply fuel_enough; lia.
Qed.

Lemma rule1_iff t s :
  String.eqb t "any" || String.eqb s "any" = true <-> rule1 t s.
Proof. unfold rule1. by rewrite orb_true_iff, !String.eqb_eq. Qed.

Lemma rule3_iff t s :
  includes numericTypes (VStr t) && includes numericTypes (VStr s) = true <->
  rule3 t s.
Proof. unfold rule3. by rewrite andb_true_iff, !includes_numeric_str. Qed.

Lemma both_end_with_iff x t s :
  0 < String.length x ->
  endsWith t x && endsWith s x = true <-> both_end_with x t s.
Proof.
  intros Hx. unfold both_end_with.
  rewrite andb_true_iff, !(endsWith_spec _ _ Hx). split.
  - intros [[tb ->] [sb ->]]. eauto.
  - intros (tb & sb & -> & ->). eauto.
Qed.

Lemma slice_array_app (b : string) : slice (b +:+ "[]") 0 (-2) = b.
Proof. apply (slice_app b "[]"). simpl. lia. Qed.

Lemma slice_pointer_app (b : string) : slice (b +:+ "*") 0 (-1) = b.
Proof. apply (slice_app b "*"). simpl. lia. Qed.

Lemma not_true_iff (b : bool) (P : Prop) : (b = true <-> P) -> ~ P -> b = false.
Proof. destruct b; intuition. Qed.

Lemma false_not_iff (b : bool) (P : Prop) : (b = true <-> P) -> b = false -> ~ P.
Proof. destruct b; intuition congruence. Qed.

Lemma spec_sound t s b :
  spec_compatible t s b -> areTypesCompatible (VStr t) (VStr s) = Returns b.
Proof.
  induction 1 as [t s H1|t s H1 H2|t s H1 H2 H3|tb sb b t s H1 H2 H3 _ IH
                 |tb sb b t s H1 H2 H3 H4 _ IH|t s H1 H2 H3 H4 H5];
    rewrite areTypesCompatible_str; unfold str_step.
  - apply rule1_iff in H1. by rewrite H1.
  - rewrite (not_true_iff _ _ (rule1_iff t s) H1).
    apply String.eqb_eq in H2. by rewrite H2.
  - rewrite (not_true_iff _ _ (rule1_iff t s) H1).
    rewrite (not_true_iff _ _ (String.eqb_eq t s) H2).
    apply rule3_iff in H3. by rewrite H3.
  - rewrite (not_true_iff _ _ (rule1_iff t s) H1).
    rewrite (not_true_iff _ _ (String.eqb_eq t s) H2).
    rewrite (not_true_iff _ _ (rule3_iff t s) H3).
    subst t s. rewrite !endsWith_app. cbn [andb].
    rewrite !slice_array_app. exact IH.
  - rewrite (not_true_iff _ _ (rule1_iff t s) H1).
    rewrite (not_true_iff _ _ (String.eqb_eq t s) H2).
    rewrite (not_true_iff _ _ (rule3_iff t s) H3).
    rewrite (not_true_iff _ _ (both_end_with_iff "[]" t s ltac:(simpl; lia)) H4).
    subst t s. rewrite !endsWith_app. cbn [andb].
    rewrite !slice_pointer_app. exact IH.
  - rewrite (not_true_iff _ _ (rule1_iff t s) H1).
    rewrite (not_true_iff _ _ (String.eqb_eq t s) H2).
    rewrite (not_true_iff _ _ (rule3_iff t s) H3).
    rewrite (not_true_iff _ _ (both_end_with_iff "[]" t s ltac:(simpl; lia)) H4).
    rewrite (not_true_iff _ _ (both_end_with_iff "*" t s ltac:(simpl; lia)) H5).
    done.
Qed.

Lemma spec_total n t s :
  String.length t < n -> exists b, spec_compatible t s b.
Proof.
  revert t s. induction n as [|n IH]; intros t s Hn; [lia|].
  destruct (String.eqb t "any" || String.eqb s "any") eqn:E1.
  { exists true. apply spec_any. by apply rule1_iff. }
  apply (false_not_iff _ _ (rule1_iff t s)) in E1.
  destruct (String.eqb t s) eqn:E2.
  { exists true. apply spec_identical; [done|]. by apply String.eqb_eq. }
  apply (false_not_iff _ _ (String.eqb_eq t s)) in E2.
  destruct (includes numericTypes (VStr t) && includes numericTypes (VStr s)) eqn:E3.
  { exists true. apply spec_numeric; [done..|]. by apply rule3_iff. }
  apply (false_not_iff _ _ (rule3_iff t s)) in E3.
  destruct (endsWith t "[]" && endsWith s "[]") eqn:E4.
  { apply both_end_with_iff in E4 as (tb & sb & -> & ->); [|simpl; lia].
    destruct (IH tb sb) as [b Hb]; [rewrite length_app in Hn; simpl in Hn; lia|].
    exists b. by apply spec_array. }
  apply (false_not_iff _ _ (both_end_with_iff "[]" t s ltac:(simpl; lia))) in E4.
  destruct (endsWith t "*" && endsWith s "*") eqn:E5.
  { apply both_end_with_iff in E5 as (tb & sb & -> & ->); [|simpl; lia].
    destruct (IH tb sb) as [b Hb]; [rewrite length_app in Hn; simpl in Hn; lia|].
    exists b. by apply spec_pointer. }
  apply (false_not_iff _ _ (both_end_with_iff "*" t s ltac:(simpl; lia))) in E5.
  exists false. by apply spec_otherwise.
Qed.

Lemma areTypesCompatible_returns (t s : string) :
  exists b, areTypesCompatible (VStr t) (VStr s) = Returns b.
Proof.
  destruct (spec_total (S (String.length t)) t s) as [b Hb]; [lia|].
  exists b. by apply spec_sound.
Qed.

(** C1: on every pair of type strings [areTypesCompatible] returns, and
    what it returns is what the six ordered rules of the specification
    give: the rules relate the pair to the returned boolean and to no
    other. *)
Theorem areTypesCompatible_refines_spec (t s : string) :
  exists b, areTypesCompatible (VStr t) (VStr s) = Returns b /\
            forall b', spec_compatible t s b' <-> b' = b.
Proof.
  destruct (spec_total (S (String.length t)) t s) as [b Hb]; [lia|].
  exists b. split; [by apply spec_sound|].
  intros b'. split.
  - intros Hb'. apply spec_sound in Hb, Hb'. congruence.
  - by intros ->.
Qed.

(** The depth bound is never reached: [areTypesCompatible] returns or
    throws a TypeError, whatever the two values. *)
Lemma areTypesCompatible_no_overflow (targetType sourceType : jsval) :
  areTypesCompatible targetType sourceType <> Throws RangeError.
Proof.
  destruct targetType as [| |b|n|t|elems|props|up];
    try (unfold areTypesCompatible; cbn;
         repeat match goal with |- context [if ?c then _ else _] => destruct c end;
         discriminate).
  destruct sourceType as [| |b|n|s|elems|props|up];
    try (unfold areTypesCompatible; cbn [depth_bound areTypesCompatible_fuel strict_eq];
         unfold includes; cbn [numericTypes existsb strict_eq orb andb js_endsWith and_then];
         cbn [mbind result_bind];
         repeat match goal with |- context [if ?c then _ else _] => destruct c end;
         discriminate).
  destruct (areTypesCompatible_returns t s) as [b Hb]. rewrite Hb. discriminate.
Qed.

(** * The scan *)

Lemma getVariableType_undeclared this name :
  variableTypes this !! name = None -> getVariableType this name = VNull.
Proof. intros H. unfold getVariableType. by rewrite H. Qed.

Lemma isVariableDeclared_false this name :
  isVariableDeclared this name = false <-> variableTypes this !! name = None.
Proof.
  unfold isVariableDeclared. rewrite bool_decide_eq_false, eq_None_not_Some. done.
Qed.

Lemma isVariableDeclared_true this name :
  isVariableDeclared this name = true <-> is_Some (variableTypes this !! name).
Proof. unfold isVariableDeclared. by rewrite bool_decide_eq_true. Qed.

(** The three parts of [checkBlockTypeErrors]. *)
Lemma is_declaration_not_reference block :
  is_declaration block = true -> is_reference block = false.
Proof.
  unfold is_declaration, is_reference.
  intros [->%String.eqb_eq | ->%String.eqb_eq]%orb_true_iff; reflexivity.
Qed.

Lemma check_reference_undeclared block this :
  is_reference block = true ->
  variableTypes this !! Block.getFieldValue block "VAR" = None ->
  checkBlockTypeErrors block this = (Returns (), this).
Proof.
  intros Href Hnone. unfold checkBlockTypeErrors.
  unfold is_reference in Href.
  apply orb_true_iff in Href as [Hget%String.eqb_eq | Hset%String.eqb_eq].
  - rewrite Hget. cbn [String.eqb Ascii.eqb Bool.eqb orb]. run.
    rewrite (getVariableType_undeclared _ _ Hnone). reflexivity.
  - rewrite Hset. cbn [String.eqb Ascii.eqb Bool.eqb orb]. run.
    rewrite (getVariableType_undeclared _ _ Hnone). reflexivity.
Qed.

Lemma check_declaration_new block this :
  is_declaration block = true ->
  variableTypes this !! declared_name block = None ->
  checkBlockTypeErrors block this =
  registerVariable (declared_name block) (Block.getFieldValue block "TYPE")
    (declared_scope block) this.
Proof.
  intros Hdecl Hnone. pose proof (is_declaration_not_reference _ Hdecl) as Href.
  unfold is_reference in Href. apply orb_false_iff in Href as [Hget Hset].
  unfold checkBlockTypeErrors. rewrite Hget, Hset.
  fold (is_declaration block). rewrite Hdecl. fold (declared_name block).
  fold (declared_scope block). run.
  apply isVariableDeclared_false in Hnone. rewrite Hnone. reflexivity.
Qed.

Lemma check_declaration_again block this errors :
  is_declaration block = true ->
  isVariableDeclared this (declared_name block) = true ->
  typeErrors this = VArr errors ->
  checkBlockTypeErrors block this =
  (Returns (), set_typeErrors (VArr (errors ++ [already_declared block])) this).
Proof.
  intros Hdecl Hsome Herr. pose proof (is_declaration_not_reference _ Hdecl) as Href.
  unfold is_reference in Href. apply orb_false_iff in Href as [Hget Hset].
  unfold checkBlockTypeErrors. rewrite Hget, Hset.
  fold (is_declaration block). rewrite Hdecl. fold (declared_name block). run.
  rewrite Hsome. unfold push_error. rewrite Herr. reflexivity.
Qed.

Lemma str_includes_app (a b fragment : string) :
  str_includes b fragment = true -> str_includes (a +:+ b) fragment = true.
Proof.
  intros H. induction a as [|c a IH]; [done|].
  change (String c a +:+ b) with (String c (a +:+ b)).
  cbn [str_includes]. rewrite IH. by destruct (String.prefix _ _).
Qed.

Lemma already_declared_message block :
  severity (already_declared block) = VStr "error" /\
  mentions "already declared" (already_declared block) = true.
Proof.
  split; [reflexivity|].
  unfold mentions, already_declared, error_record, get. cbn [own_properties].
  rewrite lookup_insert_ne by done. rewrite lookup_insert_eq.
  change ("Variable " +:+ declared_name block +:+ " is already declared")
    with (String.append "Variable " (String.append (declared_name block) " is already declared")).
  apply str_includes_app, str_includes_app. reflexivity.
Qed.

Lemma preserves_ret {A} name (a : A) : preserves name (mret a).
Proof. by intros this. Qed.

Lemma preserves_read {A} name (f : TypeManager -> A) : preserves name (read f).
Proof. by intros this. Qed.

Lemma preserves_lift {A} name (r : result A) : preserves name (lift r).
Proof. by intros this. Qed.

Lemma preserves_bind {A B} name (m : M A) (k : A -> M B) :
  preserves name m -> (forall a, preserves name (k a)) -> preserves name (m ≫= k).
Proof.
  intros Hm Hk this. unfold mbind, M_bind. specialize (Hm this).
  destruct (m this) as [[a|e] this']; cbn [snd] in *; [|done].
  by rewrite Hk.
Qed.

Lemma preserves_push_error name block message :
  preserves name (push_error block message).
Proof. intros this. unfold push_error. by destruct (typeErrors this). Qed.

Lemma preserves_registerVariable name variableName type scope :
  variableName <> name -> preserves name (registerVariable variableName type scope).
Proof. intros Hne this. cbn. by rewrite lookup_insert_ne. Qed.

Lemma check_variableTypes_other block this name :
  (is_declaration block = true -> declared_name block <> name) ->
  variableTypes (checkBlockTypeErrors block this).2 !! name =
  variableTypes this !! name.
Proof.
  intros Hother. revert this. fold (preserves name (checkBlockTypeErrors block)).
  unfold checkBlockTypeErrors.
  fold (is_declaration block) (declared_name block) (declared_scope block).
  repeat first
    [ apply preserves_ret | apply preserves_read | apply preserves_lift
    | apply preserves_push_error
    | apply preserves_bind; [|intros ?]
    | match goal with
      | |- preserves _ (if ?c then _ else _) => destruct c eqn:?
      end ].
  apply preserves_registerVariable. auto.
Qed.

Lemma for_of_skip_reference (pre post : list Block.t) (block : Block.t) this :
  is_reference block = true ->
  variableTypes this !! Block.getFieldValue block "VAR" = None ->
  Forall (fun d => is_declaration d = true ->
                   declared_name d <> Block.getFieldValue block "VAR") pre ->
  for_of (pre ++ block :: post) checkBlockTypeErrors this =
  for_of (pre ++ post) checkBlockTypeErrors this.
Proof.
  intros Href. revert this. induction pre as [|d pre IH]; intros this Hnone Hpre.
  - cbn [app for_of]. run. by rewrite check_reference_undeclared.
  - apply Forall_cons in Hpre as [Hd Hpre]. cbn [app for_of]. run.
    pose proof (check_variableTypes_other d this _ Hd) as Hkeep.
    destruct (checkBlockTypeErrors d this) as [[[]|e] this'] eqn:E; [|done].
    cbn [snd] in Hkeep. apply IH; [congruence | done].
Qed.

Lemma preserves_for_of name (blocks : list Block.t) :
  Forall (fun d => is_declaration d = true -> declared_name d <> name) blocks ->
  preserves name (for_of blocks checkBlockTypeErrors).
Proof.
  induction 1 as [|d blocks Hd _ IH]; cbn [for_of]; [apply preserves_ret|].
  apply preserves_bind; [|done].
  intros this. by apply check_variableTypes_other.
Qed.

(** C4, amended: the scan is one pass in list order.  A getter or a
    setter of a name that is not registered when the scan starts,
    standing before every declaration of that name, finds no registered
    type, adds no diagnostic and changes nothing: the scan of the list is
    the scan of the list without that block. *)
Theorem forward_reference_skipped (pre post : list Block.t) (block : Block.t)
    (this : TypeManager) :
  let name := Block.getFieldValue block "VAR" in
  is_reference block = true ->
  isVariableDeclared this name = false ->
  Forall (fun d => is_declaration d = true -> declared_name d <> name) pre ->
  getVariableType (scanned pre this) name = VNull /\
  checkBlockTypeErrors block (scanned pre this) = (Returns (), scanned pre this) /\
  checkTypeErrors (pre ++ block :: post) this = checkTypeErrors (pre ++ post) this.
Proof.
  intros name Href Hnone%isVariableDeclared_false Hpre.
  assert (Hat : variableTypes (scanned pre this) !! name = None).
  { unfold scanned. by rewrite (preserves_for_of name pre Hpre). }
  split; [by apply getVariableType_undeclared|].
  split; [by apply check_reference_undeclared|].
  unfold checkTypeErrors. run.
  by rewrite for_of_skip_reference.
Qed.

(** C4, amended, at a setter of [counter] standing before the
    declaration of [counter], on a new registry. *)
Lemma forward_reference_skipped_witness :
  checkTypeErrors
    ([typed_lexical_variable_get "total" "number"] ++
     typed_lexical_variable_set "counter" "string"
       :: [typed_local_declaration_statement "counter" "number"]) new_TypeManager =
  checkTypeErrors
    ([typed_lexical_variable_get "total" "number"] ++
     [typed_local_declaration_statement "counter" "number"]) new_TypeManager.
Proof.
  apply (forward_reference_skipped
           [typed_lexical_variable_get "total" "number"]
           [typed_local_declaration_statement "counter" "number"]
           (typed_lexical_variable_set "counter" "string") new_TypeManager).
  - reflexivity.
  - reflexivity.
  - repeat constructor. discriminate.
Defined.

(** C4 as stated fails: [checkTypeErrors] empties the diagnostics, not
    the variable map.  A first scan of a setter of [counter] followed by
    the declaration of [counter] finds nothing and registers [counter];
    a second scan of the same list looks [counter] up at the setter,
    finds the type the first scan registered and flags the setter, which
    stands before every declaration of [counter] in the list: the scan
    of the list is not the scan of the list without the setter. *)
Lemma forward_reference_counterexample :
  exists this1 mismatch again this2,
    checkTypeErrors [typed_lexical_variable_set "counter" "string";
                     typed_local_declaration_statement "counter" "number"]
      new_TypeManager = (Returns (VArr []), this1) /\
    checkTypeErrors [typed_lexical_variable_set "counter" "string";
                     typed_local_declaration_statement "counter" "number"]
      this1 = (Returns (VArr [mismatch; again]), this2) /\
    getVariableType (scanned [] this1) "counter" = VStr "number" /\
    get mismatch "block" =
      Returns (Block.self (typed_lexical_variable_set "counter" "string")) /\
    mentions "Type mismatch" mismatch = true /\
    mentions "already declared" again = true /\
    checkTypeErrors
      ([] ++ typed_lexical_variable_set "counter" "string"
          :: [typed_local_declaration_statement "counter" "number"]) this1 <>
    checkTypeErrors
      ([] ++ [typed_local_declaration_statement "counter" "number"]) this1.
Proof.
  eexists _, _, _, _.
  split; [reflexivity|]. split; [reflexivity|]. split; [reflexivity|].
  split; [reflexivity|]. split; [reflexivity|]. split; [reflexivity|].
  intros H. apply (f_equal (fun out => match out.1 with
                                       | Returns (VArr errors) => length errors
                                       | _ => 0
                                       end)) in H.
  vm_compute in H. discriminate H.
Qed.

Lemma get_object (props : gmap string jsval) (name : string) :
  get (VObj props) name = Returns (default VUndefined (props !! name)).
Proof. unfold get. cbn [own_properties]. by destruct (props !! name). Qed.

Lemma getVariableType_registered this name type scope :
  variableTypes this !! name = Some (variable_record type scope) ->
  getVariableType this name = VStr type.
Proof.
  intros H. unfold getVariableType. rewrite H.
  change (default VUndefined (Some ?v)) with v.
  unfold variable_record. cbn [truthy]. rewrite get_object.
  by rewrite lookup_insert_eq.
Qed.

(** C2: scanning two declarations (global or local) of one name, not
    registered before, yields one diagnostic, of severity error, whose
    message mentions "already declared"; the record of the first
    declaration stays, and [getVariableType] answers the first
    declaration's type. *)
Theorem duplicate_declaration_keeps_first (first second : Block.t) (this : TypeManager) :
  let name := declared_name first in
  is_declaration first = true ->
  is_declaration second = true ->
  declared_name second = name ->
  isVariableDeclared this name = false ->
  exists error this',
    checkTypeErrors [first; second] this = (Returns (VArr [error]), this') /\
    severity error = VStr "error" /\
    mentions "already declared" error = true /\
    getVariableType this' name = VStr (Block.getFieldValue first "TYPE") /\
    variableTypes this' =
      <[name := variable_record (Block.getFieldValue first "TYPE") (declared_scope first)]>
        (variableTypes this).
Proof.
  intros name H1 H2 Hsame Hnone%isVariableDeclared_false.
  exists (already_declared second). eexists.
  unfold checkTypeErrors. run. cbn [for_of]. run.
  rewrite check_declaration_new by done. cbn [registerVariable update].
  unfold registerVariable, update. cbn beta iota.
  rewrite (check_declaration_again second _ []); cycle 1.
  { done. }
  { apply isVariableDeclared_true. rewrite Hsame. cbn. rewrite lookup_insert_eq. eauto. }
  { reflexivity. }
  cbn beta iota. split; [reflexivity|].
  destruct (already_declared_message second) as [Hsev Hmsg].
  split; [done|]. split; [done|]. split; [|reflexivity].
  apply (getVariableType_registered _ _ _ (declared_scope first)).
  cbn. by rewrite lookup_insert_eq.
Qed.

(** C2 at a local declaration of [counter : number] followed by a
    global declaration of [counter : string], on a new registry. *)
Lemma duplicate_declaration_keeps_first_witness :
  exists error this',
    checkTypeErrors [typed_local_declaration_statement "counter" "number";
                     typed_global_declaration "counter" "string"] new_TypeManager
      = (Returns (VArr [error]), this') /\
    severity error = VStr "error" /\
    mentions "already declared" error = true /\
    getVariableType this' "counter" = VStr "number" /\
    variableTypes this' =
      <["counter" := variable_record "number" "local"]> (variableTypes new_TypeManager).
Proof.
  apply (duplicate_declaration_keeps_first
           (typed_local_declaration_statement "counter" "number")
           (typed_global_declaration "counter" "string") new_TypeManager);
    reflexivity.
Defined.

Lemma local_declaration_fields name type :
  let block := typed_local_declaration_statement name type in
  is_declaration block = true /\ declared_name block = name /\
  Block.getFieldValue block "TYPE" = type /\ declared_scope block = "local".
Proof. repeat split; vm_compute; reflexivity. Qed.

Lemma check_setter name assigned registered this errors :
  getVariableType this name = VStr registered ->
  registered <> EmptyString ->
  typeErrors this = VArr errors ->
  checkBlockTypeErrors (typed_lexical_variable_set name assigned) this =
  match areTypesCompatible (VStr registered) (VStr assigned) with
  | Returns true => (Returns (), this)
  | Returns false =>
      (Returns (),
       set_typeErrors
         (VArr (errors ++
            [error_record (typed_lexical_variable_set name assigned)
               ("Type mismatch: cannot assign " +:+ assigned +:+
                " to variable " +:+ name +:+ " of type " +:+ registered)])) this)
  | Throws e => (Throws e, this)
  end.
Proof.
  intros Htype Hne Herr. unfold checkBlockTypeErrors.
  cbn [Block.type typed_lexical_variable_set Block.getFieldValue Block.getVariableType].
  change (String.eqb "typed_lexical_variable_set" "typed_lexical_variable_get") with false.
  change (String.eqb "typed_lexical_variable_set" "typed_lexical_variable_set") with true.
  change (String.eqb "typed_lexical_variable_set" "typed_global_declaration") with false.
  change (String.eqb "typed_lexical_variable_set" "typed_local_declaration_statement") with false.
  change (field_values [("VAR", name)] "VAR") with name.
  cbn [orb]. run. rewrite Htype. cbn [truthy].
  apply String.eqb_neq in Hne. rewrite Hne. cbn [negb].
  destruct (areTypesCompatible _ _) as [[]|e]; cbn [negb ToString]; try reflexivity.
  unfold push_error. rewrite Herr. reflexivity.
Qed.

Lemma scan_declaration_then_setter name assigned this :
  isVariableDeclared this name = false ->
  checkTypeErrors [typed_local_declaration_statement name "number";
                   typed_lexical_variable_set name assigned] this =
  let this1 :=
    set_variableTypes (<[name := variable_record "number" "local"]> (variableTypes this))
      (set_typeErrors (VArr []) this) in
  match checkBlockTypeErrors (typed_lexical_variable_set name assigned) this1 with
  | (Returns _, this2) => (Returns (typeErrors this2), this2)
  | (Throws e, this2) => (Throws e, this2)
  end.
Proof.
  intros Hnone%isVariableDeclared_false.
  destruct (local_declaration_fields name "number") as (Hd & Hn & Ht & Hs).
  unfold checkTypeErrors. run. cbn [for_of]. run.
  rewrite check_declaration_new by (try rewrite Hn; done).
  rewrite Hn, Ht, Hs. unfold registerVariable, update. cbn beta iota.
  fold (variable_record "number" "local").
  destruct (checkBlockTypeErrors _ _) as [[[]|e] this2]; reflexivity.
Qed.

(** C3: scanning a local declaration of a variable of type "number"
    followed by a setter assigning it a "string" yields a diagnostic
    whose message mentions "Type mismatch"; with a setter assigning an
    "int" the scan yields no diagnostic at all. *)
Theorem setter_type_mismatch (name : string) (this : TypeManager) :
  isVariableDeclared this name = false ->
  let declaration := typed_local_declaration_statement name "number" in
  (exists error this',
     checkTypeErrors [declaration; typed_lexical_variable_set name "string"] this =
       (Returns (VArr [error]), this') /\
     mentions "Type mismatch" error = true) /\
  (exists this',
     checkTypeErrors [declaration; typed_lexical_variable_set name "int"] this =
       (Returns (VArr []), this')).
Proof.
  intros Hnone declaration. subst declaration.
  split.
  - rewrite scan_declaration_then_setter by done. cbn zeta.
    rewrite (check_setter name "string" "number" _ []); cycle 1.
    { apply (getVariableType_registered _ _ _ "local"). cbn. by rewrite lookup_insert_eq. }
    { done. }
    { reflexivity. }
    change (areTypesCompatible (VStr "number") (VStr "string")) with (@Returns bool false).
    eexists _, _. split; [reflexivity|].
    unfold mentions, error_record. rewrite get_object.
    rewrite lookup_insert_ne by done. rewrite lookup_insert_eq. reflexivity.
  - rewrite scan_declaration_then_setter by done. cbn zeta.
    rewrite (check_setter name "int" "number" _ []); cycle 1.
    { apply (getVariableType_registered _ _ _ "local"). cbn. by rewrite lookup_insert_eq. }
    { done. }
    { reflexivity. }
    change (areTypesCompatible (VStr "number") (VStr "int")) with (@Returns bool true).
    eexists. reflexivity.
Qed.

(** C3 at the variable [counter], on a new registry. *)
Lemma setter_type_mismatch_witness :
  (exists error this',
     checkTypeErrors [typed_local_declaration_statement "counter" "number";
                      typed_lexical_variable_set "counter" "string"] new_TypeManager =
       (Returns (VArr [error]), this') /\
     mentions "Type mismatch" error = true) /\
  (exists this',
     checkTypeErrors [typed_local_declaration_statement "counter" "number";
                      typed_lexical_variable_set "counter" "int"] new_TypeManager =
       (Returns (VArr []), this')).
Proof. apply (setter_type_mismatch "counter" new_TypeManager). reflexivity. Defined.

(** * Values as trees *)

Lemma jsize_elem (elems : list jsval) (x : jsval) :
  x ∈ elems -> jsize x < jsize (VArr elems).
Proof.
  intros Hx. cbn [jsize].
  induction Hx as [x l|x y l _ IH]; cbn [foldr]; lia.
Qed.

Lemma jsize_prop (props : gmap string jsval) (k : string) (x : jsval) :
  props !! k = Some x -> jsize x < jsize (VObj props).
Proof.
  cbn [jsize]. revert k x.
  induction props as [|i y m Hi IH] using map_ind; intros k x Hk.
  - by rewrite lookup_empty in Hk.
  - rewrite map_fold_insert_L; [|intros; lia|done].
    destruct (decide (i = k)) as [->|Hne].
    + rewrite lookup_insert_eq in Hk. injection Hk as ->. lia.
    + rewrite lookup_insert_ne in Hk by done. specialize (IH k x Hk). lia.
Qed.

Lemma jsval_tree_ind (P : jsval -> Prop) :
  P VUndefined -> P VNull -> (forall b, P (VBool b)) -> (forall n, P (VNum n)) ->
  (forall s, P (VStr s)) ->
  (forall elems, Forall P elems -> P (VArr elems)) ->
  (forall props, map_Forall (fun _ => P) props -> P (VObj props)) ->
  (forall up, P (VCycle up)) ->
  forall v, P v.
Proof.
  intros Hu Hn Hb Hz Hs Ha Ho Hc v.
  revert v. assert (H : forall n v, jsize v < n -> P v).
  { induction n as [|n IH]; intros v Hv; [lia|].
    destruct v; auto.
    - apply Ha, Forall_forall. intros x Hx. apply IH.
      pose proof (jsize_elem _ _ Hx). lia.
    - apply Ho. intros k x Hk. apply IH.
      pose proof (jsize_prop _ _ _ Hk). lia. }
  intros v. apply (H (S (jsize v))). lia.
Qed.

Lemma map_fold_orb_false {A} (f : A -> bool) (m : gmap string A) :
  map_fold (fun _ x found => f x || found) false m = false <->
  map_Forall (fun _ x => f x = false) m.
Proof.
  induction m as [|i y m Hi IH] using map_ind.
  - rewrite map_fold_empty. split; [intros _; apply map_Forall_empty|done].
  - rewrite map_fold_insert_L; [|intros; by rewrite !orb_assoc, (orb_comm (f z1))|done].
    rewrite orb_false_iff, IH, map_Forall_insert by done. done.
Qed.

Lemma map_fold_andb_true {A} (f : A -> bool) (m : gmap string A) :
  map_fold (fun _ x ok => f x && ok) true m = true <->
  map_Forall (fun _ x => f x = true) m.
Proof.
  induction m as [|i y m Hi IH] using map_ind.
  - rewrite map_fold_empty. split; [intros _; apply map_Forall_empty|done].
  - rewrite map_fold_insert_L; [|intros; by rewrite !andb_assoc, (andb_comm (f z1))|done].
    rewrite andb_true_iff, IH, map_Forall_insert by done. done.
Qed.

Lemma has_cycle_object props :
  has_cycle (VObj props) = false <-> map_Forall (fun _ x => has_cycle x = false) props.
Proof. cbn [has_cycle]. apply map_fold_orb_false. Qed.

Lemma has_cycle_array elems :
  has_cycle (VArr elems) = false <-> Forall (fun x => has_cycle x = false) elems.
Proof.
  cbn [has_cycle]. induction elems as [|x l IH]; cbn [existsb].
  - split; [constructor|done].
  - rewrite orb_false_iff, IH, Forall_cons. done.
Qed.

Lemma is_json_object props :
  is_json (VObj props) = true <-> map_Forall (fun _ x => is_json x = true) props.
Proof. cbn [is_json]. apply map_fold_andb_true. Qed.

Lemma is_json_array elems :
  is_json (VArr elems) = true <-> Forall (fun x => is_json x = true) elems.
Proof.
  cbn [is_json]. induction elems as [|x l IH]; cbn [forallb].
  - split; [constructor|done].
  - rewrite andb_true_iff, IH, Forall_cons. done.
Qed.

Lemma is_json_image v :
  is_json v = true -> has_cycle v = false /\ json_image v = Some v.
Proof.
  induction v as [| |b|n|s|elems IH|props IH|up] using jsval_tree_ind;
    intros Hj; try done.
  - apply is_json_array in Hj. split.
    + apply has_cycle_array. rewrite Forall_forall in *.
      intros x Hx. by apply (IH x Hx), Hj.
    + cbn [json_image]. f_equal. f_equal.
      induction Hj as [|x l Hx Hl IHl]; [done|].
      apply Forall_cons in IH as [IHx IH]. cbn [fmap list_fmap].
      destruct (IHx Hx) as [_ ->]. cbn [default]. f_equal. by apply IHl.
  - apply is_json_object in Hj. split.
    + apply has_cycle_object. intros k x Hk. by apply (IH k x Hk), (Hj k x Hk).
    + cbn [json_image]. f_equal. f_equal. apply map_eq. intros k.
      rewrite lookup_omap. destruct (props !! k) as [x|] eqn:Hk; [|done].
      cbn. by apply (IH k x Hk), (Hj k x Hk).
Qed.

Lemma json_image_is_json v j :
  has_cycle v = false -> json_image v = Some j -> is_json j = true.
Proof.
  revert j.
  induction v as [| |b|n|s|elems IH|props IH|up] using jsval_tree_ind;
    intros j Hc Hi; try (injection Hi as <-; done); try done.
  - injection Hi as <-. apply has_cycle_array in Hc. apply is_json_array.
    induction Hc as [|x l Hx Hl IHl]; [constructor|].
    apply Forall_cons in IH as [IHx IH]. cbn [fmap list_fmap].
    constructor; [|by apply IHl].
    destruct (json_image x) as [jx|] eqn:Ex; [|done]. by apply IHx.
  - injection Hi as <-. apply has_cycle_object in Hc. apply is_json_object.
    intros k jx Hk. rewrite lookup_omap in Hk.
    destruct (props !! k) as [x|] eqn:Ek; [|done]. cbn in Hk.
    exact (IH k x Ek jx (Hc k x Ek) Hk).
Qed.

Lemma new_Map_lookup (entries : list (string * jsval)) (acc : gmap string jsval) k :
  NoDup entries.*1 ->
  foldl (fun m kv => <[kv.1 := kv.2]> m) acc entries !! k =
  match (list_to_map entries : gmap string jsval) !! k with
  | Some v => Some v
  | None => acc !! k
  end.
Proof.
  revert acc. induction entries as [|[k0 v0] l IH]; intros acc Hnd; [done|].
  rewrite fmap_cons in Hnd. apply NoDup_cons in Hnd as [Hk0 Hnd].
  cbn [fst] in Hk0. cbn [foldl fst snd]. rewrite IH by done.
  change (list_to_map ((k0, v0) :: l) : gmap string jsval)
    with (<[k0:=v0]> (list_to_map l : gmap string jsval)).
  destruct (decide (k0 = k)) as [->|Hne].
  - rewrite (not_elem_of_list_to_map_1 _ _ Hk0). by rewrite !lookup_insert_eq.
  - rewrite !lookup_insert_ne by done. done.
Qed.

Lemma new_Map_entries (m : gmap string jsval) : new_Map (map_to_list m) = m.
Proof.
  apply map_eq. intros k. unfold new_Map.
  rewrite new_Map_lookup by apply NoDup_fst_map_to_list.
  rewrite list_to_map_to_list, lookup_empty. by destruct (m !! k).
Qed.

(** * The compact reader reads what the compact writer wrote *)
Module CompactFacts.
Import Compact.

Lemma str_app_cons (c : ascii) (a b : string) : String c a +:+ b = String c (a +:+ b).
Proof. reflexivity. Qed.

Lemma str_app_nil (b : string) : EmptyString +:+ b = b.
Proof. reflexivity. Qed.

Lemma str_app_assoc (a b c : string) : (a +:+ b) +:+ c = a +:+ (b +:+ c).
Proof. induction a as [|x a IH]; [done|]. by rewrite !str_app_cons, IH. Qed.

Lemma read_string_escape (s rest : string) :
  read_string (escape s +:+ String dquote rest) = Some (s, rest).
Proof.
  induction s as [|c s IH]; [done|].
  cbn [escape].
  destruct (Ascii.eqb c dquote) eqn:Eq.
  { apply Ascii.eqb_eq in Eq as ->. rewrite !str_app_cons. cbn [read_string].
    change (Ascii.eqb "\" dquote) with false. change (Ascii.eqb "\" "\") with true.
    change (Ascii.eqb dquote dquote) with true. cbn [orb]. by rewrite IH. }
  destruct (Ascii.eqb c "\") eqn:Eb.
  { apply Ascii.eqb_eq in Eb as ->. rewrite !str_app_cons. cbn [read_string].
    change (Ascii.eqb "\" dquote) with false. change (Ascii.eqb "\" "\") with true.
    rewrite orb_true_r. by rewrite IH. }
  rewrite str_app_cons. cbn [read_string]. rewrite Eq, Eb. by rewrite IH.
Qed.

Lemma number_chars_app (token rest : string) :
  all_number_chars token = true -> follows rest ->
  number_chars (token +:+ rest) = (token, rest).
Proof.
  intros Htok Hrest. induction token as [|c token IH].
  - rewrite str_app_nil. destruct rest as [|c rest]; [done|].
    cbn [number_chars]. cbn in Hrest. by rewrite Hrest.
  - cbn [all_number_chars] in Htok. apply andb_true_iff in Htok as [Hc Htok].
    rewrite str_app_cons. cbn [number_chars]. by rewrite Hc, IH.
Qed.

Lemma string_of_uint_chars (d : Decimal.uint) :
  all_number_chars (NilEmpty.string_of_uint d) = true.
Proof. induction d; cbn [NilEmpty.string_of_uint all_number_chars]; try done. Qed.

Lemma write_number_chars (n : Z) : all_number_chars (write_number n) = true.
Proof.
  unfold write_number. destruct (Z.to_int n) as [d|d]; cbn [NilEmpty.string_of_int].
  - apply string_of_uint_chars.
  - cbn [all_number_chars]. apply string_of_uint_chars.
Qed.

Lemma write_number_nonempty (n : Z) : write_number n <> EmptyString.
Proof.
  unfold write_number. intros H.
  pose proof (NilEmpty.isi (Z.to_int n)) as Hisi. rewrite H in Hisi.
  cbn in Hisi. injection Hisi as Hd.
  pose proof (DecimalZ.of_to n) as Hof. rewrite <- Hd in Hof. cbn in Hof. subst n.
  discriminate Hd.
Qed.

Lemma read_number_write (n : Z) (rest : string) :
  follows rest -> read_number (write_number n +:+ rest) = Some (n, rest).
Proof.
  intros Hrest. unfold read_number.
  rewrite number_chars_app by (apply write_number_chars || done).
  unfold write_number at 1. rewrite NilEmpty.isi, DecimalZ.of_to.
  by rewrite String.eqb_refl.
Qed.

Lemma write_number_head (n : Z) :
  exists c s, write_number n = String c s /\ is_number_char c = true.
Proof.
  pose proof (write_number_chars n) as Hall. pose proof (write_number_nonempty n) as Hne.
  destruct (write_number n) as [|c s]; [done|].
  cbn [all_number_chars] in Hall. apply andb_true_iff in Hall as [Hc _]. eauto.
Qed.

Lemma prefix_app (a b : string) : String.prefix a (a +:+ b) = true.
Proof.
  induction a as [|c a IH]; [by destruct b|].
  rewrite str_app_cons. cbn [String.prefix]. by destruct (ascii_dec c c).
Qed.

Lemma substring_app_drop (a b : string) :
  String.substring (String.length a) (String.length b) (a +:+ b) = b.
Proof. induction a as [|c a IH]; [apply substring_all|done]. Qed.

Lemma read_keyword_app (word : string) (v : jsval) (rest : string) :
  read_keyword word v (word +:+ rest) = Some (v, rest).
Proof.
  unfold read_keyword. rewrite prefix_app, length_app.
  replace (String.length word + String.length rest - String.length word)
    with (String.length rest) by lia.
  by rewrite substring_app_drop.
Qed.

(** The first character decides what is read. *)
Lemma number_char_dispatch (c : ascii) :
  is_number_char c = true ->
  Ascii.eqb c "n" = false /\ Ascii.eqb c "t" = false /\ Ascii.eqb c "f" = false /\
  Ascii.eqb c dquote = false /\ Ascii.eqb c "[" = false /\ Ascii.eqb c "{" = false /\
  Ascii.eqb c "]" = false /\ Ascii.eqb c "}" = false.
Proof.
  destruct c as [[] [] [] [] [] [] [] []]; intros H; try discriminate H;
    repeat split; reflexivity.
Qed.

Lemma write_head (v : jsval) :
  exists c s, write v = String c s /\
              Ascii.eqb c "]" = false /\ Ascii.eqb c "}" = false.
Proof.
  destruct v as [| |[]|n|s|elems|props|up]; cbn [write];
    try (eexists _, _; split; [reflexivity|split; reflexivity]).
  destruct (write_number_head n) as (c & s & -> & Hc).
  apply number_char_dispatch in Hc. exists c, s. intuition.
Qed.

Lemma join_more (x y : string) (pieces : list string) (rest : string) (close : ascii) :
  join (x :: y :: pieces) +:+ String close rest =
  x +:+ String "," (join (y :: pieces) +:+ String close rest).
Proof. cbn [join]. by rewrite str_app_assoc. Qed.

Lemma read_elements_write (elems : list jsval) :
  Forall reads elems -> elems <> [] ->
  forall fuel rest, elements_size elems <= fuel ->
    read_elements fuel (join (write <$> elems) +:+ String "]" rest) = Some (elems, rest).
Proof.
  induction 1 as [|x l Hx Hl IH]; intros Hne fuel rest Hfuel; [done|].
  cbn [elements_size foldr] in Hfuel. fold (elements_size l) in Hfuel.
  destruct fuel as [|fuel]; [lia|]. cbn [read_elements].
  destruct l as [|y l].
  - cbn [fmap list_fmap join]. rewrite Hx by (lia || done). reflexivity.
  - rewrite !fmap_cons, join_more, <- fmap_cons.
    rewrite Hx by (lia || done).
    change (Ascii.eqb "," ",") with true. cbv iota.
    rewrite IH by (done || lia). reflexivity.
Qed.

Lemma write_string_app (s rest : string) :
  write_string s +:+ rest = String dquote (escape s +:+ String dquote rest).
Proof. unfold write_string. by rewrite str_app_cons, str_app_assoc. Qed.

Lemma read_members_write (members : list (string * jsval)) :
  Forall (fun kv => reads kv.2) members -> members <> [] ->
  forall fuel rest, members_size members <= fuel ->
    read_members fuel (join (write_member <$> members) +:+ String "}" rest) =
    Some (members, rest).
Proof.
  induction 1 as [|[k x] l Hx Hl IH]; intros Hne fuel rest Hfuel; [done|].
  cbn [members_size foldr snd] in Hfuel. fold (members_size l) in Hfuel.
  destruct fuel as [|fuel]; [lia|].
  cbn [fst snd] in *.
  assert (Hhead : forall tail,
    read_members (S fuel) (write_member (k, x) +:+ tail) =
    match read_value fuel (write x +:+ tail) with
    | Some (v, String c after) =>
        if Ascii.eqb c "," then
          match read_members fuel after with
          | Some (more, after') => Some ((k, v) :: more, after')
          | None => None
          end
        else if Ascii.eqb c "}" then Some ([(k, v)], after)
        else None
    | _ => None
    end).
  { intros tail. unfold write_member. cbn [fst snd].
    rewrite str_app_assoc, write_string_app. cbn [read_members].
    change (Ascii.eqb dquote dquote) with true. cbn [negb].
    rewrite read_string_escape. rewrite str_app_cons.
    change (Ascii.eqb ":" ":") with true. cbn [negb]. reflexivity. }
  destruct l as [|y l].
  - cbn [fmap list_fmap join]. rewrite Hhead, Hx by (lia || done). reflexivity.
  - rewrite !fmap_cons, join_more, <- fmap_cons.
    rewrite Hhead, Hx by (lia || done).
    change (Ascii.eqb "," ",") with true. cbv iota.
    rewrite IH by (done || lia). reflexivity.
Qed.

Lemma write_object (props : gmap string jsval) :
  write (VObj props) =
  String "{" (join (write_member <$> map_to_list props) +:+ "}").
Proof.
  cbn [write]. do 3 f_equal. rewrite map_fold_foldr.
  induction (map_to_list props) as [|[k x] l IH]; [done|].
  cbn [foldr uncurry]. rewrite fmap_cons. by rewrite IH.
Qed.

Lemma jsize_object (props : gmap string jsval) :
  jsize (VObj props) = S (members_size (map_to_list props)).
Proof.
  cbn [jsize]. f_equal. rewrite map_fold_foldr. unfold members_size.
  induction (map_to_list props) as [|[k x] l IH]; [done|].
  cbn [foldr uncurry snd]. by rewrite IH.
Qed.

Lemma read_value_write (v : jsval) : is_json v = true -> reads v.
Proof.
  induction v as [| |b|n|s|elems IH|props IH|up] using jsval_tree_ind;
    intros Hj; try done; intros fuel rest Hfuel Hrest;
    (destruct fuel as [|fuel]; [cbn [jsize] in Hfuel; lia|]).
  - apply (read_keyword_app "null").
  - destruct b; [apply (read_keyword_app "true")|apply (read_keyword_app "false")].
  - cbn [write]. destruct (write_number_head n) as (c & s & Hw & Hc).
    pose proof (read_number_write n rest Hrest) as Hread.
    rewrite Hw in *. rewrite str_app_cons in *. cbn [read_value].
    destruct (number_char_dispatch c Hc) as (-> & -> & -> & -> & -> & -> & _).
    by rewrite Hc, Hread.
  - cbn [write]. rewrite write_string_app. cbn [read_value].
    change (Ascii.eqb dquote "n") with false. change (Ascii.eqb dquote "t") with false.
    change (Ascii.eqb dquote "f") with false. change (Ascii.eqb dquote dquote) with true.
    cbv iota. by rewrite read_string_escape.
  - cbn [write]. rewrite str_app_cons, str_app_assoc.
    change ("]" +:+ rest) with (String "]" rest).
    apply is_json_array in Hj.
    destruct elems as [|x l]; [reflexivity|].
    assert (Hreads : Forall reads (x :: l)).
    { rewrite Forall_forall in *. intros y Hy. by apply (IH y Hy), Hj. }
    pose proof (read_elements_write (x :: l) Hreads ltac:(done) fuel rest) as Hread.
    cbn [jsize] in Hfuel. fold (elements_size (x :: l)) in Hfuel.
    specialize (Hread ltac:(lia)).
    destruct (write_head x) as (c & s & Hw & Hc & _).
    rewrite fmap_cons in *.
    assert (Hstart : exists tail,
      join (write x :: (write <$> l)) +:+ String "]" rest = String c tail).
    { destruct l as [|y l].
      - cbn [fmap list_fmap join]. rewrite Hw, str_app_cons. eauto.
      - rewrite fmap_cons, join_more, Hw, str_app_cons. eauto. }
    destruct Hstart as [tail Hstart]. rewrite Hstart in *.
    cbn [read_value]. rewrite Hc, Hread. reflexivity.
  - rewrite write_object, str_app_cons, str_app_assoc.
    change ("}" +:+ rest) with (String "}" rest).
    apply is_json_object in Hj. rewrite jsize_object in Hfuel.
    destruct (map_to_list props) as [|[k x] l] eqn:El.
    { apply map_to_list_empty_iff in El as ->. reflexivity. }
    assert (Hreads : Forall (fun kv => reads kv.2) ((k, x) :: l)).
    { rewrite <- El. apply Forall_forall. intros [k' x'] Hin%elem_of_map_to_list.
      by apply (IH k' x' Hin), (Hj k' x' Hin). }
    pose proof (read_members_write _ Hreads ltac:(done) fuel rest ltac:(lia)) as Hread.
    assert (Hstart : exists tail,
      join (write_member <$> (k, x) :: l) +:+ String "}" rest = String dquote tail).
    { rewrite fmap_cons. unfold write_member at 1. cbn [fst snd].
      destruct l as [|y l].
      - cbn [fmap list_fmap join]. rewrite str_app_assoc, write_string_app. eauto.
      - rewrite fmap_cons, join_more, str_app_assoc, write_string_app. eauto. }
    destruct Hstart as [tail Hstart]. rewrite Hstart in *.
    cbn [read_value]. change (Ascii.eqb dquote "}") with false. cbv iota.
    rewrite Hread. rewrite <- El, new_Map_entries. reflexivity.
Qed.

Lemma length_join_write (pieces : list string) :
  foldr (fun p n => S (String.length p + n)) 0 pieces <= S (String.length (join pieces)).
Proof.
  induction pieces as [|x [|y l] IH]; cbn [foldr join String.length] in *; [lia|lia|].
  rewrite length_app. cbn [String.length]. lia.
Qed.

Lemma jsize_le_length (v : jsval) : jsize v <= String.length (write v).
Proof.
  induction v as [| |b|n|s|elems IH|props IH|up] using jsval_tree_ind;
    try (cbn; lia).
  - destruct b; cbn; lia.
  - cbn [jsize write]. destruct (write_number_head n) as (c & s & -> & _). cbn. lia.
  - cbn [jsize write String.length]. rewrite length_app. cbn [String.length].
    assert (Hle : foldr (fun x n => S (jsize x + n)) 0 elems <=
                  foldr (fun p n => S (String.length p + n)) 0 (write <$> elems)).
    { induction IH as [|x l Hx _ IHl]; [done|]. rewrite fmap_cons. cbn [foldr]. lia. }
    pose proof (length_join_write (write <$> elems)) as Hlen.
    lia.
  - rewrite jsize_object, write_object. cbn [String.length]. rewrite length_app.
    cbn [String.length].
    assert (Hle : members_size (map_to_list props) <=
                  foldr (fun p n => S (String.length p + n)) 0
                    (write_member <$> map_to_list props)).
    { assert (Hall : Forall (fun kv => jsize kv.2 <= String.length (write kv.2))
                       (map_to_list props)).
      { apply Forall_forall. intros [k x] Hin%elem_of_map_to_list. by apply (IH k x). }
      unfold members_size. induction Hall as [|[k x] l Hx _ IHl]; [done|].
      rewrite fmap_cons. cbn [foldr fst snd] in *. unfold write_member at 1.
      cbn [fst snd]. rewrite length_app. cbn [String.length]. lia. }
    pose proof (length_join_write (write_member <$> map_to_list props)) as Hlen.
    lia.
Qed.

Lemma str_app_empty_r (s : string) : s +:+ EmptyString = s.
Proof. induction s as [|c s IH]; [done|]. by rewrite str_app_cons, IH. Qed.

Theorem parse_write (v : jsval) : is_json v = true -> parse (write v) = Some v.
Proof.
  intros Hj. unfold parse.
  pose proof (read_value_write v Hj (S (String.length (write v))) EmptyString) as Hread.
  rewrite str_app_empty_r in Hread. rewrite Hread; [done| |done].
  pose proof (jsize_le_length v). lia.
Qed.
End CompactFacts.

(** * exportTypeInfo and importTypeInfo *)

Lemma Object_entries_or_else (v : jsval) :
  Object_entries (or_else v (VObj ∅)) =
  Returns (map_to_list (own_properties (or_else v (VObj ∅)))).
Proof. unfold or_else. destruct (truthy v) eqn:E; [|done]. by destruct v. Qed.

Section JSON_facts.
Variable JSON_text : jsval -> string.
Variable JSON_parse : string -> option jsval.

Lemma exportTypeInfo_eq this :
  exportTypeInfo JSON_text this =
  if has_cycle (VObj (exported this)) then Throws TypeError
  else Returns (VStr (JSON_text (VObj (omap json_image (exported this))))).
Proof.
  unfold exportTypeInfo, JSON_stringify, SerializeJSONProperty.
  fold (exported this). by destruct (has_cycle _).
Qed.

Lemma importTypeInfo_object jsonString data this :
  JSON_parse jsonString = Some (VObj data) ->
  importTypeInfo JSON_parse jsonString this = (Returns (), imported data).
Proof.
  intros Hparse. unfold importTypeInfo, try_catch. run. rewrite Hparse.
  rewrite !get_object. rewrite !Object_entries_or_else.
  unfold set_variableTypes, set_blockTypes, set_typeErrors. cbn.
  rewrite !new_Map_entries. reflexivity.
Qed.

(** C10: [importTypeInfo] of a text [JSON.parse] rejects returns
    normally and leaves the variable map, the block-metadata map and the
    diagnostic list as they were. *)
Theorem importTypeInfo_unparseable jsonString this :
  JSON_parse jsonString = None ->
  importTypeInfo JSON_parse jsonString this = (Returns (), this).
Proof.
  intros Hparse. unfold importTypeInfo, try_catch. run. by rewrite Hparse.
Qed.

(** C8: [importTypeInfo] of a text that reads as an object returns
    normally, and each of the three stores whose field the object lacks
    is empty afterwards; for the text of the empty object all three
    are. *)
Theorem importTypeInfo_missing_fields jsonString data this :
  JSON_parse jsonString = Some (VObj data) ->
  exists this',
    importTypeInfo JSON_parse jsonString this = (Returns (), this') /\
    (data !! "variableTypes" = None -> variableTypes this' = ∅) /\
    (data !! "blockTypes" = None -> blockTypes this' = ∅) /\
    (data !! "typeErrors" = None -> typeErrors this' = VArr []).
Proof.
  intros Hparse. exists (imported data).
  split; [by apply importTypeInfo_object|].
  unfold imported. cbn [variableTypes blockTypes typeErrors].
  repeat split; intros ->; reflexivity.
Qed.
End JSON_facts.

Lemma exported_lookup this :
  exported this !! "variableTypes" = Some (VObj (variableTypes this)) /\
  exported this !! "blockTypes" = Some (VObj (blockTypes this)) /\
  exported this !! "typeErrors" = Some (typeErrors this).
Proof. repeat split. Qed.

Lemma has_cycle_exported this :
  has_cycle (VObj (exported this)) = false <->
  map_Forall (fun _ x => has_cycle x = false) (variableTypes this) /\
  map_Forall (fun _ x => has_cycle x = false) (blockTypes this) /\
  has_cycle (typeErrors this) = false.
Proof.
  rewrite has_cycle_object. unfold exported, Object_fromEntries.
  rewrite !map_Forall_insert, map_Forall_singleton, !has_cycle_object by done.
  done.
Qed.

Lemma omap_json_image_id (m : gmap string jsval) :
  map_Forall (fun _ x => is_json x = true) m -> omap json_image m = m.
Proof.
  intros Hm. apply map_eq. intros k. rewrite lookup_omap.
  destruct (m !! k) as [x|] eqn:Hk; [|done]. cbn.
  by apply is_json_image, (Hm k x Hk).
Qed.


(** C10 at a text the compact reader rejects. *)
Lemma importTypeInfo_unparseable_witness :
  Compact.parse "not json" = None /\
  importTypeInfo Compact.parse "not json" plain_registry = (Returns (), plain_registry).
Proof.
  split; [reflexivity|].
  apply (importTypeInfo_unparseable Compact.parse "not json" plain_registry).
  reflexivity.
Defined.

(** C8 at the text of the empty object. *)
Lemma importTypeInfo_missing_fields_witness :
  exists this',
    importTypeInfo Compact.parse "{}" plain_registry = (Returns (), this') /\
    variableTypes this' = ∅ /\ blockTypes this' = ∅ /\ typeErrors this' = VArr [].
Proof.
  destruct (importTypeInfo_missing_fields Compact.parse "{}" ∅ plain_registry eq_refl)
    as (this' & Himport & Hv & Hb & He).
  exists this'. repeat split; auto.
Defined.



(** The round trip on any pair of JSON functions. *)
Lemma importTypeInfo_exported JSON_text JSON_parse this text :
  JSON_law JSON_text JSON_parse ->
  exportTypeInfo JSON_text this = Returns (VStr text) ->
  importTypeInfo JSON_parse text this =
  (Returns (), imported (omap json_image (exported this))).
Proof.
  intros Hlaw Hexport. rewrite exportTypeInfo_eq in Hexport.
  destruct (has_cycle (VObj (exported this))) eqn:Hc; [done|].
  injection Hexport as <-. apply importTypeInfo_object, Hlaw.
  by apply (json_image_is_json (VObj (exported this))).
Qed.


(** Without a cycle in what the registry holds, the export returns a
    text. *)
Lemma exportTypeInfo_returns JSON_text this :
  map_Forall (fun _ x => has_cycle x = false) (variableTypes this) ->
  map_Forall (fun _ x => has_cycle x = false) (blockTypes this) ->
  has_cycle (typeErrors this) = false ->
  exists text, exportTypeInfo JSON_text this = Returns (VStr text).
Proof.
  intros Hv Hb He. rewrite exportTypeInfo_eq.
  assert (Hc : has_cycle (VObj (exported this)) = false) by by apply has_cycle_exported.
  rewrite Hc. eauto.
Qed.

Lemma exportTypeInfo_throws_iff JSON_text this :
  exportTypeInfo JSON_text this = Throws TypeError <->
  has_cycle (VObj (exported this)) = true.
Proof. rewrite exportTypeInfo_eq. by destruct (has_cycle _). Qed.

(** C9 fails on the code: after a scan that found a type mismatch the
    diagnostic list holds the setter block, whose field refers back to
    the block, and [exportTypeInfo()] throws a TypeError, whatever the
    layout of the text. *)
Theorem exportTypeInfo_throws_with_diagnostic (JSON_text : jsval -> string) :
  (exists error, typeErrors registry_with_diagnostic = VArr [error] /\
                 mentions "Type mismatch" error = true /\
                 has_cycle error = true) /\
  exportTypeInfo JSON_text registry_with_diagnostic = Throws TypeError.
Proof.
  split.
  - eexists. split; [reflexivity|]. split; reflexivity.
  - apply exportTypeInfo_throws_iff. reflexivity.
Qed.

(** * The examples of the specification *)

Example compatible_numeric :
  areTypesCompatible (VStr "number") (VStr "int") = Returns true /\
  areTypesCompatible (VStr "number") (VStr "float") = Returns true /\
  areTypesCompatible (VStr "int") (VStr "double") = Returns true.
Proof. repeat split. Qed.

Example incompatible_names :
  areTypesCompatible (VStr "string") (VStr "number") = Returns false /\
  areTypesCompatible (VStr "boolean") (VStr "string") = Returns false.
Proof. repeat split. Qed.

Example compatible_arrays :
  areTypesCompatible (VStr "number[]") (VStr "number[]") = Returns true /\
  areTypesCompatible (VStr "number[]") (VStr "string[]") = Returns false /\
  areTypesCompatible (VStr "number[]") (VStr "int[]") = Returns true.
Proof. repeat split. Qed.

Example compatible_pointers :
  areTypesCompatible (VStr "int*") (VStr "int*") = Returns true /\
  areTypesCompatible (VStr "int*") (VStr "float*") = Returns true /\
  areTypesCompatible (VStr "int*") (VStr "char*") = Returns false.
Proof. repeat split. Qed.

Example register_then_lookup :
  let this := (registerVariable "counter" "number" "global" new_TypeManager).2 in
  getVariableType this "counter" = VStr "number" /\
  isVariableDeclared this "counter" = true.
Proof. split; reflexivity. Qed.

Example reset_empties :
  let this := (reset plain_registry).2 in
  getVariableTypeSummary this = VObj ∅ /\ getTypeErrors this = VArr [].
Proof. split; reflexivity. Qed.

(** * Further properties *)

(** * The two stores of the registry *)

Lemma getVariableType_insert this name type scope name' :
  getVariableType
    (set_variableTypes (<[name := variable_record type scope]> (variableTypes this)) this)
    name' =
  if String.eqb name name' then VStr type else getVariableType this name'.
Proof.
  destruct (String.eqb_spec name name') as [<-|Hne].
  - apply getVariableType_registered with scope. cbn. apply lookup_insert_eq.
  - unfold getVariableType. cbn [variableTypes set_variableTypes].
    by rewrite lookup_insert_ne.
Qed.

(** X1: after [registerVariable(name, type, scope)] the registry answers
    [type] for [name] and says it is declared, whatever was registered
    for [name] before; every other name answers as before, and the block
    metadata and the diagnostics are untouched. *)
Theorem registerVariable_then_lookup (this : TypeManager)
    (name type scope name' : string) :
  let this' := (registerVariable name type scope this).2 in
  getVariableType this' name' =
    (if String.eqb name name' then VStr type else getVariableType this name') /\
  isVariableDeclared this' name' =
    (String.eqb name name' || isVariableDeclared this name') /\
  blockTypes this' = blockTypes this /\
  typeErrors this' = typeErrors this.
Proof.
  cbn zeta. split; [apply getVariableType_insert|]. split; [|done].
  unfold isVariableDeclared. cbn.
  destruct (String.eqb_spec name name') as [<-|Hne].
  - rewrite lookup_insert_eq. done.
  - by rewrite lookup_insert_ne.
Qed.

(** X2: [getBlockType] reads back what [registerBlockType] stored under
    the same id, except that a falsy value ([undefined], [null], [false],
    [0], the empty string) reads back as [null], as if nothing were
    stored; other ids, the variable map and the diagnostics are
    untouched. *)
Theorem registerBlockType_then_lookup (this : TypeManager)
    (blockId blockId' : string) (typeInfo : jsval) :
  let this' := (registerBlockType blockId typeInfo this).2 in
  getBlockType this' blockId' =
    (if String.eqb blockId blockId'
     then (if truthy typeInfo then typeInfo else VNull)
     else getBlockType this blockId') /\
  variableTypes this' = variableTypes this /\
  typeErrors this' = typeErrors this.
Proof.
  cbn zeta. split; [|done]. unfold getBlockType. cbn.
  destruct (String.eqb_spec blockId blockId') as [<-|Hne].
  - by rewrite lookup_insert_eq.
  - by rewrite lookup_insert_ne.
Qed.

(** * One block of the scan *)

Lemma check_other block this :
  recognized block = false -> checkBlockTypeErrors block this = (Returns (), this).
Proof.
  unfold recognized, is_reference. intros [[Hget Hset]%orb_false_iff Hdecl]%orb_false_iff.
  unfold checkBlockTypeErrors. rewrite Hget, Hset. fold (is_declaration block).
  by rewrite Hdecl.
Qed.

Lemma check_getter_eq block this :
  Block.type block = "typed_lexical_variable_get" ->
  checkBlockTypeErrors block this =
  let name := Block.getFieldValue block "VAR" in
  let expected := Block.getVariableType block in
  let actual := getVariableType this name in
  if truthy actual then
    match areTypesCompatible (VStr expected) actual with
    | Returns true => (Returns (), this)
    | Returns false =>
        match ToString actual with
        | Returns got => push_error block (getter_message expected got name) this
        | Throws e => (Throws e, this)
        end
    | Throws e => (Throws e, this)
    end
  else (Returns (), this).
Proof.
  intros Htype. unfold checkBlockTypeErrors. rewrite Htype.
  cbn [String.eqb Ascii.eqb Bool.eqb orb]. cbn zeta. run.
  destruct (truthy _); [|done].
  destruct (areTypesCompatible _ _) as [[]|e]; cbn [negb]; [done| |done].
  destruct (ToString _) as [got|e]; [|done].
  unfold getter_message. by destruct (push_error _ _ _) as [[[]|e] this'].
Qed.

Lemma check_setter_eq block this :
  Block.type block = "typed_lexical_variable_set" ->
  checkBlockTypeErrors block this =
  let name := Block.getFieldValue block "VAR" in
  let assigned := Block.getVariableType block in
  let actual := getVariableType this name in
  if truthy actual then
    match areTypesCompatible actual (VStr assigned) with
    | Returns true => (Returns (), this)
    | Returns false =>
        match ToString actual with
        | Returns got => push_error block (setter_message assigned name got) this
        | Throws e => (Throws e, this)
        end
    | Throws e => (Throws e, this)
    end
  else (Returns (), this).
Proof.
  intros Htype. unfold checkBlockTypeErrors. rewrite Htype.
  cbn [String.eqb Ascii.eqb Bool.eqb orb]. cbn zeta. run.
  destruct (truthy _); [|done].
  destruct (areTypesCompatible _ _) as [[]|e]; cbn [negb]; [done| |done].
  destruct (ToString _) as [got|e]; [|done].
  unfold setter_message. by destruct (push_error _ _ _) as [[[]|e] this'].
Qed.

Lemma check_declaration_eq block this :
  is_declaration block = true ->
  checkBlockTypeErrors block this =
  if isVariableDeclared this (declared_name block) then
    push_error block ("Variable " +:+ declared_name block +:+ " is already declared") this
  else
    registerVariable (declared_name block) (Block.getFieldValue block "TYPE")
      (declared_scope block) this.
Proof.
  intros Hdecl. pose proof (is_declaration_not_reference _ Hdecl) as Href.
  unfold is_reference in Href. apply orb_false_iff in Href as [Hget Hset].
  unfold checkBlockTypeErrors. rewrite Hget, Hset.
  fold (is_declaration block). rewrite Hdecl. fold (declared_name block).
  fold (declared_scope block). run.
  by destruct (isVariableDeclared _ _).
Qed.

Lemma recognized_cases block :
  Block.type block = "typed_lexical_variable_get" \/
  Block.type block = "typed_lexical_variable_set" \/
  is_declaration block = true \/
  recognized block = false.
Proof.
  unfold recognized, is_reference.
  destruct (String.eqb_spec (Block.type block) "typed_lexical_variable_get"); [by left|].
  destruct (String.eqb_spec (Block.type block) "typed_lexical_variable_set");
    [by right; left|].
  destruct (is_declaration block); [by right; right; left | by right; right; right].
Qed.

Lemma push_error_step block message this :
  scan_step block this (push_error block message this).
Proof.
  unfold push_error. destruct (typeErrors this) eqn:E; try apply step_none.
  by apply step_push.
Qed.

Lemma check_scan_step block this :
  scan_step block this (checkBlockTypeErrors block this).
Proof.
  destruct (recognized_cases block) as [H|[H|[H|H]]].
  - rewrite (check_getter_eq _ _ H). cbn zeta.
    destruct (truthy _); [|apply step_none].
    destruct (areTypesCompatible _ _) as [[]|e]; try apply step_none.
    destruct (ToString _); [apply push_error_step | apply step_none].
  - rewrite (check_setter_eq _ _ H). cbn zeta.
    destruct (truthy _); [|apply step_none].
    destruct (areTypesCompatible _ _) as [[]|e]; try apply step_none.
    destruct (ToString _); [apply push_error_step | apply step_none].
  - rewrite (check_declaration_eq _ _ H).
    destruct (isVariableDeclared _ _) eqn:E; [apply push_error_step|].
    apply step_register; [done|]. by apply isVariableDeclared_false.
  - rewrite (check_other _ _ H). apply step_none.
Qed.

Lemma areTypesCompatible_any_l (v : jsval) :
  areTypesCompatible (VStr "any") v = Returns true.
Proof. reflexivity. Qed.

Lemma areTypesCompatible_any_r (v : jsval) :
  areTypesCompatible v (VStr "any") = Returns true.
Proof.
  unfold areTypesCompatible.
  destruct (depth_bound v) as [|n] eqn:E; [by destruct v|].
  cbn [areTypesCompatible_fuel]. change (strict_eq (VStr "any") (VStr "any")) with true.
  by rewrite orb_true_r.
Qed.

(** X3: a getter or a setter whose own type is "any", or whose variable
    is registered with the type "any", is never flagged:
    [checkBlockTypeErrors] returns and leaves the registry as it is,
    whatever the registry holds. *)
Theorem any_is_never_flagged (block : Block.t) (this : TypeManager) :
  is_reference block = true ->
  Block.getVariableType block = "any" \/
  getVariableType this (Block.getFieldValue block "VAR") = VStr "any" ->
  checkBlockTypeErrors block this = (Returns (), this).
Proof.
  unfold is_reference.
  intros [Hget%String.eqb_eq | Hset%String.eqb_eq]%orb_true_iff Hany.
  - rewrite (check_getter_eq _ _ Hget). cbn zeta.
    destruct Hany as [-> | ->].
    + rewrite areTypesCompatible_any_l. by destruct (truthy _).
    + by rewrite areTypesCompatible_any_r.
  - rewrite (check_setter_eq _ _ Hset). cbn zeta.
    destruct Hany as [-> | ->].
    + rewrite areTypesCompatible_any_r. by destruct (truthy _).
    + by rewrite areTypesCompatible_any_l.
Qed.

Lemma any_is_never_flagged_witness :
  checkBlockTypeErrors (typed_lexical_variable_set "counter" "any") plain_registry =
  (Returns (), plain_registry).
Proof.
  apply (any_is_never_flagged (typed_lexical_variable_set "counter" "any") plain_registry).
  - reflexivity.
  - left. reflexivity.
Defined.

Lemma check_reference_falsy block this :
  is_reference block = true ->
  truthy (getVariableType this (Block.getFieldValue block "VAR")) = false ->
  checkBlockTypeErrors block this = (Returns (), this).
Proof.
  unfold is_reference.
  intros [Hget%String.eqb_eq | Hset%String.eqb_eq]%orb_true_iff Hfalsy.
  - rewrite (check_getter_eq _ _ Hget). cbn zeta. by rewrite Hfalsy.
  - rewrite (check_setter_eq _ _ Hset). cbn zeta. by rewrite Hfalsy.
Qed.

(** X4: a variable registered with the empty string as its type is
    declared, yet no getter or setter of it is ever checked: the empty
    type is falsy, and [checkBlockTypeErrors] takes it for a missing
    one. *)
Theorem empty_type_is_never_checked (block : Block.t) (this : TypeManager)
    (scope : string) :
  is_reference block = true ->
  let name := Block.getFieldValue block "VAR" in
  let this' := (registerVariable name "" scope this).2 in
  isVariableDeclared this' name = true /\
  getVariableType this' name = VStr "" /\
  checkBlockTypeErrors block this' = (Returns (), this').
Proof.
  intros Href name this'.
  assert (Htype : getVariableType this' name = VStr "").
  { unfold this'. cbn [registerVariable update snd].
    rewrite getVariableType_insert. by rewrite String.eqb_refl. }
  split; [|split; [done|]].
  - apply isVariableDeclared_true. unfold this'. cbn. rewrite lookup_insert_eq. eauto.
  - apply check_reference_falsy; [done|]. fold name. by rewrite Htype.
Qed.

Lemma empty_type_is_never_checked_witness :
  isVariableDeclared (registerVariable "counter" "" "local" new_TypeManager).2 "counter" =
    true /\
  getVariableType (registerVariable "counter" "" "local" new_TypeManager).2 "counter" =
    VStr "" /\
  checkBlockTypeErrors (typed_lexical_variable_get "counter" "string")
    (registerVariable "counter" "" "local" new_TypeManager).2 =
    (Returns (), (registerVariable "counter" "" "local" new_TypeManager).2).
Proof.
  apply (empty_type_is_never_checked (typed_lexical_variable_get "counter" "string")
           new_TypeManager "local").
  reflexivity.
Defined.

Lemma fuel_sym_top (a b : string) :
  areTypesCompatible (VStr a) (VStr b) = areTypesCompatible (VStr b) (VStr a).
Proof.
  unfold areTypesCompatible, depth_bound.
  rewrite (fuel_enough (S (String.length a))
             (S (String.length a + String.length b)) a b) by lia.
  rewrite (fuel_enough (S (String.length b))
             (S (String.length a + String.length b)) b a) by lia.
  apply fuel_sym.
Qed.

(** X5: against a variable registered with a non-empty type, a getter
    and a setter of the same name and type are flagged in the same cases,
    namely when [areTypesCompatible] of the two types is false.  Each then
    adds one diagnostic at the end of the list; the getter's message
    names the block's type as expected and the registered type as got,
    the setter's names the block's type as assigned. *)
Theorem getter_and_setter_agree (name type registered : string)
    (this : TypeManager) (errors : list jsval) :
  getVariableType this name = VStr registered ->
  registered <> "" ->
  typeErrors this = VArr errors ->
  let getter := typed_lexical_variable_get name type in
  let setter := typed_lexical_variable_set name type in
  exists compatible : bool,
    areTypesCompatible (VStr type) (VStr registered) = Returns compatible /\
    checkBlockTypeErrors getter this =
      (Returns (),
       if compatible then this
       else set_typeErrors
              (VArr (errors ++ [error_record getter
                                  (getter_message type registered name)])) this) /\
    checkBlockTypeErrors setter this =
      (Returns (),
       if compatible then this
       else set_typeErrors
              (VArr (errors ++ [error_record setter
                                  (setter_message type name registered)])) this).
Proof.
  intros Htype Hne Herrors getter setter.
  destruct (areTypesCompatible_returns type registered) as [b Hb].
  exists b. split; [done|].
  assert (Htruthy : truthy (VStr registered) = true).
  { cbn. by destruct (String.eqb_spec registered ""). }
  split.
  - rewrite (check_getter_eq getter this eq_refl). cbn zeta.
    change (Block.getFieldValue getter "VAR") with name.
    change (Block.getVariableType getter) with type.
    rewrite Htype, Htruthy, Hb. destruct b; [done|].
    cbn [ToString]. unfold push_error. by rewrite Herrors.
  - rewrite (check_setter_eq setter this eq_refl). cbn zeta.
    change (Block.getFieldValue setter "VAR") with name.
    change (Block.getVariableType setter) with type.
    rewrite Htype, Htruthy, <- fuel_sym_top, Hb. destruct b; [done|].
    cbn [ToString]. unfold push_error. by rewrite Herrors.
Qed.

Lemma getter_and_setter_agree_witness :
  exists compatible : bool,
    areTypesCompatible (VStr "string") (VStr "number") = Returns compatible /\
    checkBlockTypeErrors (typed_lexical_variable_get "counter" "string") plain_registry =
      (Returns (),
       if compatible then plain_registry
       else set_typeErrors
              (VArr ([] ++ [error_record (typed_lexical_variable_get "counter" "string")
                              (getter_message "string" "number" "counter")]))
              plain_registry) /\
    checkBlockTypeErrors (typed_lexical_variable_set "counter" "string") plain_registry =
      (Returns (),
       if compatible then plain_registry
       else set_typeErrors
              (VArr ([] ++ [error_record (typed_lexical_variable_set "counter" "string")
                              (setter_message "string" "counter" "number")]))
              plain_registry).
Proof.
  apply (getter_and_setter_agree "counter" "string" "number" plain_registry []).
  - reflexivity.
  - discriminate.
  - reflexivity.
Defined.

(** * The whole scan *)

Lemma checkTypeErrors_eq blocks this :
  checkTypeErrors blocks this =
  match for_of blocks checkBlockTypeErrors (set_typeErrors (VArr []) this) with
  | (Returns _, this') => (Returns (typeErrors this'), this')
  | (Throws e, this') => (Throws e, this')
  end.
Proof. unfold checkTypeErrors. run. by destruct (for_of _ _ _) as [[[]|e] this']. Qed.

Lemma checkTypeErrors_snd blocks this :
  (checkTypeErrors blocks this).2 = scanned blocks this.
Proof.
  rewrite checkTypeErrors_eq. unfold scanned.
  by destruct (for_of _ _ _) as [[[]|e] this'].
Qed.

Lemma for_of_cons (block : Block.t) blocks this :
  for_of (block :: blocks) checkBlockTypeErrors this =
  match checkBlockTypeErrors block this with
  | (Returns _, this') => for_of blocks checkBlockTypeErrors this'
  | (Throws e, this') => (Throws e, this')
  end.
Proof. cbn [for_of]. run. by destruct (checkBlockTypeErrors _ _) as [[[]|e] this']. Qed.

Lemma for_of_snd_cons (block : Block.t) blocks this :
  (for_of (block :: blocks) checkBlockTypeErrors this).2 =
  match checkBlockTypeErrors block this with
  | (Returns _, this') => (for_of blocks checkBlockTypeErrors this').2
  | (Throws e, this') => this'
  end.
Proof. rewrite for_of_cons. by destruct (checkBlockTypeErrors _ _) as [[[]|e] this']. Qed.

(** X6: blocks of any other kind than the four typed-variable kinds are
    ignored: the scan of a list is the scan of the list without them, in
    what it returns and in the registry it leaves. *)
Theorem other_blocks_are_ignored (blocks : list Block.t) (this : TypeManager) :
  checkTypeErrors blocks this = checkTypeErrors (List.filter recognized blocks) this.
Proof.
  rewrite !checkTypeErrors_eq.
  generalize (set_typeErrors (VArr []) this). clear this.
  assert (H : forall this,
    for_of blocks checkBlockTypeErrors this =
    for_of (List.filter recognized blocks) checkBlockTypeErrors this).
  { induction blocks as [|b blocks IH]; intros this; [done|].
    cbn [List.filter]. destruct (recognized b) eqn:E.
    - rewrite !for_of_cons. by destruct (checkBlockTypeErrors b this) as [[[]|e] this'].
    - rewrite for_of_cons, (check_other _ _ E). apply IH. }
  intros this. by rewrite H.
Qed.

(** The records of the scan. *)
Lemma scan_step_records block this out :
  scan_step block this out ->
  blockTypes out.2 = blockTypes this /\
  (variableTypes out.2 = variableTypes this \/
   is_declaration block = true /\
   variableTypes this !! declared_name block = None /\
   variableTypes out.2 =
     <[declared_name block :=
         variable_record (Block.getFieldValue block "TYPE") (declared_scope block)]>
       (variableTypes this)).
Proof.
  destruct 1; cbn; split; try done; try by left.
  right. done.
Qed.

Lemma for_of_records blocks this :
  let this' := (for_of blocks checkBlockTypeErrors this).2 in
  blockTypes this' = blockTypes this /\
  variableTypes this ⊆ variableTypes this' /\
  forall name record,
    variableTypes this' !! name = Some record ->
    variableTypes this !! name = Some record \/
    exists d, d ∈ blocks /\ is_declaration d = true /\ declared_name d = name /\
              record = variable_record (Block.getFieldValue d "TYPE") (declared_scope d).
Proof.
  revert this. induction blocks as [|b blocks IH]; intros this; cbn zeta.
  - cbn. split; [done|]. split; [done|]. auto.
  - rewrite for_of_snd_cons.
    destruct (scan_step_records b this _ (check_scan_step b this)) as [Hb Hv].
    destruct (checkBlockTypeErrors b this) as [[[]|e] this1]; cbn [snd] in *.
    + destruct (IH this1) as (Hb' & Hsub & Hnew).
      split; [congruence|].
      destruct Hv as [Hv | (Hdecl & Hnone & Hv)].
      * rewrite Hv in *. split; [done|].
        intros name record [H | (d & Hd & H)]%Hnew; [by left|].
        right. exists d. split; [by apply list_elem_of_further | done].
      * split.
        { etrans; [|exact Hsub]. rewrite Hv. by apply insert_subseteq. }
        intros name record [H | (d & Hd & H)]%Hnew.
        -- rewrite Hv in H. apply lookup_insert_Some in H as [[<- <-] | [_ H]];
             [|by left].
           right. exists b. split; [apply list_elem_of_here | done].
        -- right. exists d. split; [by apply list_elem_of_further | done].
    + split; [done|]. destruct Hv as [Hv | (Hdecl & Hnone & Hv)].
      * rewrite Hv. split; [done|]. auto.
      * split; [rewrite Hv; by apply insert_subseteq|].
        intros name record H. rewrite Hv in H.
        apply lookup_insert_Some in H as [[<- <-] | [_ H]]; [|by left].
        right. exists b. split; [apply list_elem_of_here | done].
Qed.

(** X7: a scan, whether it returns or throws, leaves the block metadata
    alone and never removes or replaces a variable record; a record it
    adds is the record of a declaration block of the list, with that
    block's TYPE field and scope. *)
Theorem scan_keeps_every_record (blocks : list Block.t) (this : TypeManager) :
  let this' := (checkTypeErrors blocks this).2 in
  blockTypes this' = blockTypes this /\
  (forall name record,
     variableTypes this !! name = Some record ->
     variableTypes this' !! name = Some record) /\
  (forall name record,
     variableTypes this' !! name = Some record ->
     variableTypes this !! name = Some record \/
     exists d, d ∈ blocks /\ is_declaration d = true /\ declared_name d = name /\
               record = variable_record (Block.getFieldValue d "TYPE")
                          (declared_scope d)).
Proof.
  cbn zeta. rewrite checkTypeErrors_snd. unfold scanned.
  destruct (for_of_records blocks (set_typeErrors (VArr []) this)) as (Hb & Hsub & Hnew).
  split; [exact Hb|]. split; [|exact Hnew].
  intros name record H. by eapply lookup_weaken.
Qed.

(** The diagnostics of the scan. *)
Lemma for_of_errors blocks this errors :
  typeErrors this = VArr errors ->
  exists new,
    typeErrors (for_of blocks checkBlockTypeErrors this).2 = VArr (errors ++ new) /\
    length new <= length blocks /\
    Forall (fun error => exists b message, b ∈ blocks /\ error = error_record b message)
      new.
Proof.
  revert this errors. induction blocks as [|b blocks IH]; intros this errors Herrors.
  - exists []. cbn. rewrite app_nil_r. done.
  - rewrite for_of_snd_cons.
    pose proof (check_scan_step b this) as Hstep.
    destruct (checkBlockTypeErrors b this) as [r this1].
    assert (Hone : exists one, typeErrors this1 = VArr (errors ++ one) /\
              length one <= 1 /\
              Forall (fun error => exists message, error = error_record b message) one /\
              (one <> [] -> r = Returns ())).
    { inversion Hstep; subst.
      - exists []. rewrite app_nil_r.
        split; [done|]. split; [cbn; lia|]. split; [constructor | done].
      - exists [error_record b message]. cbn [typeErrors set_typeErrors].
        split; [congruence|]. split; [cbn; lia|]. split; [|done].
        apply Forall_singleton. eauto.
      - exists []. rewrite app_nil_r. cbn.
        split; [done|]. split; [lia|]. split; [constructor | done]. }
    destruct Hone as (one & Hone & Hlen & Hfrom & Hret).
    assert (Hfrom' : Forall (fun error => exists b' message,
                               b' ∈ b :: blocks /\ error = error_record b' message) one).
    { eapply Forall_impl; [exact Hfrom|]. intros error [message ->].
      exists b, message. split; [apply list_elem_of_here | done]. }
    destruct r as [[]|e].
    + destruct (IH this1 _ Hone) as (new & Hnew & Hlen' & Hfrom'').
      exists (one ++ new). rewrite Hnew, app_assoc. split; [done|].
      split; [rewrite List.length_app; cbn; lia|].
      apply Forall_app. split; [done|].
      eapply Forall_impl; [exact Hfrom''|]. intros error (b' & message & Hb' & ->).
      exists b', message. split; [by apply list_elem_of_further | done].
    + exists one. split; [done|]. split; [cbn; lia | done].
Qed.

(** X8: the diagnostics of a scan do not depend on the diagnostics held
    before it.  After the scan the list is an array, it is what the scan
    returns when it returns, and it holds at most one diagnostic per
    block, each of severity "error" and holding a block of the scanned
    list. *)
Theorem scan_diagnostics (blocks : list Block.t) (this : TypeManager) (old : jsval) :
  checkTypeErrors blocks (set_typeErrors old this) = checkTypeErrors blocks this /\
  exists errors,
    getTypeErrors (checkTypeErrors blocks this).2 = VArr errors /\
    (forall v, (checkTypeErrors blocks this).1 = Returns v -> v = VArr errors) /\
    length errors <= length blocks /\
    Forall (fun error => severity error = VStr "error" /\
                         exists b message, b ∈ blocks /\ error = error_record b message)
      errors.
Proof.
  split; [reflexivity|].
  destruct (for_of_errors blocks (set_typeErrors (VArr []) this) [] eq_refl)
    as (errors & Herrors & Hlen & Hfrom).
  assert (Hfrom' :
    Forall (fun error => severity error = VStr "error" /\
                         exists b message, b ∈ blocks /\ error = error_record b message)
      errors).
  { eapply Forall_impl; [exact Hfrom|]. intros error (b & message & Hb & ->).
    split; [reflexivity | eauto]. }
  clear Hfrom. rename Hfrom' into Hfrom.
  exists errors. unfold getTypeErrors. rewrite checkTypeErrors_eq.
  destruct (for_of _ _ _) as [[[]|e] this']; cbn [fst snd] in *.
  - split; [done|]. split; [|done]. intros v [= <-]. done.
  - split; [done|]. split; [|done]. intros v [=].
Qed.

(** A registry whose types are strings. *)
Lemma types_are_strings_typeErrors this v :
  types_are_strings this -> types_are_strings (set_typeErrors v this).
Proof. intros H name. apply H. Qed.

Lemma types_are_strings_register this name type scope :
  types_are_strings this ->
  types_are_strings
    (set_variableTypes (<[name := variable_record type scope]> (variableTypes this)) this).
Proof.
  intros H name'. rewrite getVariableType_insert.
  destruct (String.eqb name name'); [right; eauto | apply H].
Qed.

Lemma push_error_array block message this errors :
  typeErrors this = VArr errors ->
  push_error block message this =
  (Returns (), set_typeErrors (VArr (errors ++ [error_record block message])) this).
Proof. intros H. unfold push_error. by rewrite H. Qed.

Lemma check_returns block this errors :
  types_are_strings this ->
  typeErrors this = VArr errors ->
  exists this',
    checkBlockTypeErrors block this = (Returns (), this') /\
    types_are_strings this' /\
    exists errors', typeErrors this' = VArr errors'.
Proof.
  intros Hstr Herrors.
  assert (Hpush : forall message, exists this',
            push_error block message this = (Returns (), this') /\
            types_are_strings this' /\ exists errors', typeErrors this' = VArr errors').
  { intros message. rewrite (push_error_array _ _ _ _ Herrors).
    eexists. split; [done|]. split; [by apply types_are_strings_typeErrors|].
    cbn. eauto. }
  assert (Hsame : exists this',
            (Returns (), this) = (Returns (), this') /\
            types_are_strings this' /\ exists errors', typeErrors this' = VArr errors').
  { exists this. eauto. }
  destruct (recognized_cases block) as [H|[H|[H|H]]].
  - rewrite (check_getter_eq _ _ H). cbn zeta.
    destruct (Hstr (Block.getFieldValue block "VAR")) as [-> | [type ->]]; [done|].
    destruct (truthy _); [|done].
    destruct (areTypesCompatible_returns (Block.getVariableType block) type) as [b ->].
    destruct b; [done|]. cbn [ToString]. apply Hpush.
  - rewrite (check_setter_eq _ _ H). cbn zeta.
    destruct (Hstr (Block.getFieldValue block "VAR")) as [-> | [type ->]]; [done|].
    destruct (truthy _); [|done].
    destruct (areTypesCompatible_returns type (Block.getVariableType block)) as [b ->].
    destruct b; [done|]. cbn [ToString]. apply Hpush.
  - rewrite (check_declaration_eq _ _ H).
    destruct (isVariableDeclared _ _); [apply Hpush|].
    eexists. split; [reflexivity|].
    split; [by apply types_are_strings_register|]. cbn. eauto.
  - rewrite (check_other _ _ H). done.
Qed.

Lemma for_of_returns blocks this errors :
  types_are_strings this ->
  typeErrors this = VArr errors ->
  exists this',
    for_of blocks checkBlockTypeErrors this = (Returns (), this') /\
    types_are_strings this' /\
    exists errors', typeErrors this' = VArr errors'.
Proof.
  revert this errors. induction blocks as [|b blocks IH]; intros this errors Hstr Herrors.
  - exists this. eauto.
  - rewrite for_of_cons.
    destruct (check_returns b this errors Hstr Herrors)
      as (this1 & -> & Hstr1 & errors1 & Herrors1).
    by eapply IH.
Qed.

Lemma types_are_strings_new : types_are_strings new_TypeManager.
Proof. intros name. by left. Qed.

(** X9: on a registry whose stored types are all strings (as
    [registerVariable] and the scan itself leave it) [checkTypeErrors]
    returns an array for every list of blocks, and the stored types are
    all strings afterwards. *)
Theorem scan_returns (blocks : list Block.t) (this : TypeManager) :
  types_are_strings this ->
  exists errors this',
    checkTypeErrors blocks this = (Returns (VArr errors), this') /\
    types_are_strings this'.
Proof.
  intros Hstr. rewrite checkTypeErrors_eq.
  destruct (for_of_returns blocks (set_typeErrors (VArr []) this) []
              (types_are_strings_typeErrors _ _ Hstr) eq_refl)
    as (this' & -> & Hstr' & errors & Herrors).
  exists errors, this'. by rewrite Herrors.
Qed.

Lemma scan_returns_witness :
  exists errors this',
    checkTypeErrors [typed_local_declaration_statement "counter" "number";
                     typed_lexical_variable_get "counter" "string[]"]
      new_TypeManager = (Returns (VArr errors), this') /\
    types_are_strings this'.
Proof.
  apply (scan_returns _ new_TypeManager). intros name. left. reflexivity.
Defined.

(** A second scan. *)
Lemma check_declares block this this' :
  checkBlockTypeErrors block this = (Returns (), this') ->
  is_declaration block = true ->
  isVariableDeclared this' (declared_name block) = true.
Proof.
  intros Hcheck Hdecl. rewrite (check_declaration_eq _ _ Hdecl) in Hcheck.
  destruct (isVariableDeclared this (declared_name block)) eqn:E.
  - unfold push_error in Hcheck. destruct (typeErrors this); try done.
    injection Hcheck as <-. exact E.
  - injection Hcheck as <-. apply isVariableDeclared_true. cbn.
    rewrite lookup_insert_eq. eauto.
Qed.

Lemma isVariableDeclared_weaken this this' name :
  variableTypes this ⊆ variableTypes this' ->
  isVariableDeclared this name = true -> isVariableDeclared this' name = true.
Proof.
  rewrite !isVariableDeclared_true. intros Hsub [record H].
  exists record. by eapply lookup_weaken.
Qed.

Lemma for_of_declares blocks this this' :
  for_of blocks checkBlockTypeErrors this = (Returns (), this') ->
  forall d, d ∈ blocks -> is_declaration d = true ->
            isVariableDeclared this' (declared_name d) = true.
Proof.
  revert this. induction blocks as [|b blocks IH]; intros this Hscan d Hd Hdecl.
  - by apply elem_of_nil in Hd.
  - rewrite for_of_cons in Hscan.
    destruct (checkBlockTypeErrors b this) as [[[]|e] this1] eqn:E; [|done].
    apply elem_of_cons in Hd as [-> | Hd]; [|by eapply IH].
    pose proof (for_of_records blocks this1) as (_ & Hsub & _).
    rewrite Hscan in Hsub. cbn [snd] in Hsub.
    eapply isVariableDeclared_weaken; [exact Hsub|]. by eapply check_declares.
Qed.

Lemma for_of_all_declared blocks this this' errors :
  (forall d, d ∈ blocks -> is_declaration d = true ->
             isVariableDeclared this (declared_name d) = true) ->
  typeErrors this = VArr errors ->
  for_of blocks checkBlockTypeErrors this = (Returns (), this') ->
  variableTypes this' = variableTypes this /\
  exists new, typeErrors this' = VArr (errors ++ new) /\
              forall d, d ∈ blocks -> is_declaration d = true ->
                        already_declared d ∈ new.
Proof.
  revert this errors. induction blocks as [|b blocks IH];
    intros this errors Hall Herrors Hscan.
  - injection Hscan as <-. split; [done|]. exists []. rewrite app_nil_r.
    split; [done|]. intros d Hd. by apply elem_of_nil in Hd.
  - rewrite for_of_cons in Hscan.
    assert (Hstep : exists one,
              checkBlockTypeErrors b this =
                (Returns (), set_typeErrors (VArr (errors ++ one)) this) /\
              (is_declaration b = true -> already_declared b ∈ one)).
    { destruct (is_declaration b) eqn:Hdecl.
      - exists [already_declared b]. split; [|intros _; apply list_elem_of_here].
        apply check_declaration_again; [done| |done].
        apply Hall; [apply list_elem_of_here | done].
      - pose proof (check_scan_step b this) as Hstep.
        destruct (checkBlockTypeErrors b this) as [[[]|e] this1]; [|done].
        inversion Hstep; subst.
        + exists []. rewrite app_nil_r. split; [|done].
          destruct this1; cbn in *. by rewrite Herrors.
        + exists [error_record b message]. split; [|done]. congruence.
        + congruence. }
    destruct Hstep as (one & Hcheck & Hone). rewrite Hcheck in Hscan.
    destruct (IH (set_typeErrors (VArr (errors ++ one)) this) (errors ++ one)
                (fun d Hd Hdecl => Hall d (list_elem_of_further _ _ _ Hd) Hdecl)
                eq_refl Hscan) as (Hv & new & Hnew & Hflag).
    split; [done|]. exists (one ++ new). rewrite app_assoc. split; [done|].
    intros d [-> | Hd]%elem_of_cons Hdecl; apply elem_of_app; [left | right]; auto.
Qed.

Lemma for_of_nothing_registered blocks this :
  (forall d, d ∈ blocks -> is_declaration d = true ->
             isVariableDeclared this (declared_name d) = true) ->
  variableTypes (for_of blocks checkBlockTypeErrors this).2 = variableTypes this.
Proof.
  revert this. induction blocks as [|b blocks IH]; intros this Hall; [done|].
  rewrite for_of_snd_cons.
  assert (Hkeep : variableTypes (checkBlockTypeErrors b this).2 = variableTypes this).
  { destruct (scan_step_records b this _ (check_scan_step b this))
      as [_ [Hv | (Hdecl & Hnone & _)]]; [done|].
    apply isVariableDeclared_false in Hnone.
    rewrite (Hall b (list_elem_of_here _ _) Hdecl) in Hnone. done. }
  destruct (checkBlockTypeErrors b this) as [[[]|e] this1]; cbn [snd] in *; [|done].
  rewrite <- Hkeep. apply IH. intros d Hd Hdecl.
  unfold isVariableDeclared. rewrite Hkeep.
  apply (Hall d (list_elem_of_further _ _ _ Hd) Hdecl).
Qed.

(** X10: the variable map outlives a scan.  After a scan of a list that
    returned, a second scan of the same list, with no [reset()] in
    between, registers nothing, whether it returns or throws; and when it
    returns, its diagnostics hold the already-declared diagnostic of
    every declaration of the list. *)
Theorem second_scan_flags_every_declaration (blocks : list Block.t)
    (this this1 : TypeManager) (errors1 : jsval) :
  checkTypeErrors blocks this = (Returns errors1, this1) ->
  variableTypes (checkTypeErrors blocks this1).2 = variableTypes this1 /\
  forall errors2 this2,
    checkTypeErrors blocks this1 = (Returns errors2, this2) ->
    exists diagnostics,
      errors2 = VArr diagnostics /\
      forall d, d ∈ blocks -> is_declaration d = true ->
                already_declared d ∈ diagnostics.
Proof.
  intros Hscan1. rewrite checkTypeErrors_eq in Hscan1.
  destruct (for_of blocks checkBlockTypeErrors (set_typeErrors (VArr []) this))
    as [[[]|e] scanned1] eqn:Hfor1; [|done].
  injection Hscan1 as _ ->.
  pose proof (for_of_declares _ _ _ Hfor1) as Hall.
  split.
  - rewrite checkTypeErrors_snd. unfold scanned.
    by rewrite for_of_nothing_registered.
  - intros errors2 this2 Hscan2. rewrite checkTypeErrors_eq in Hscan2.
    destruct (for_of blocks checkBlockTypeErrors (set_typeErrors (VArr []) this1))
      as [[[]|e] scanned2] eqn:Hfor2; [|done].
    injection Hscan2 as <- ->.
    destruct (for_of_all_declared blocks (set_typeErrors (VArr []) this1) this2 []
                Hall eq_refl Hfor2) as (_ & new & Hnew & Hflag).
    exists new. by rewrite Hnew.
Qed.

Lemma second_scan_flags_every_declaration_witness :
  exists diagnostics this2,
    checkTypeErrors [typed_global_declaration "counter" "number";
                     typed_lexical_variable_set "counter" "string"]
      (checkTypeErrors [typed_global_declaration "counter" "number";
                        typed_lexical_variable_set "counter" "string"]
         new_TypeManager).2 = (Returns (VArr diagnostics), this2) /\
    variableTypes this2 =
      variableTypes
        (checkTypeErrors [typed_global_declaration "counter" "number";
                          typed_lexical_variable_set "counter" "string"]
           new_TypeManager).2 /\
    already_declared (typed_global_declaration "counter" "number") ∈ diagnostics.
Proof.
  set (blocks := [typed_global_declaration "counter" "number";
                  typed_lexical_variable_set "counter" "string"]).
  set (this1 := (checkTypeErrors blocks new_TypeManager).2).
  set (this2 := (checkTypeErrors blocks this1).2).
  destruct (second_scan_flags_every_declaration blocks new_TypeManager this1
              (typeErrors this1) eq_refl) as [Hkeep Hflag].
  destruct (Hflag (typeErrors this2) this2 eq_refl) as (diagnostics & Heq & Hin).
  exists diagnostics, this2. split; [|split].
  - rewrite <- Heq. reflexivity.
  - exact Hkeep.
  - apply Hin; [apply list_elem_of_here | reflexivity].
Defined.

(** A stored type that is not a string. *)
Lemma areTypesCompatible_target_not_string (targetType sourceType : jsval) :
  is_string targetType = false ->
  areTypesCompatible targetType sourceType =
  if strict_eq sourceType (VStr "any") || strict_eq targetType sourceType
  then Returns true else Throws TypeError.
Proof.
  intros H. unfold areTypesCompatible.
  destruct targetType as [| |b|n|t|elems|props|up]; try done;
    cbn [depth_bound areTypesCompatible_fuel strict_eq orb];
    destruct (strict_eq sourceType (VStr "any")); try done;
    destruct sourceType; try done;
    cbn [strict_eq]; match goal with |- context [if ?c then _ else _] =>
                       destruct c; done end.
Qed.

(** X11: when the stored type of a variable is truthy and not a string
    (as [importTypeInfo] can leave it), a setter of that variable whose
    type is not "any" makes [checkBlockTypeErrors] throw a TypeError, and
    a scan that starts with this setter throws it too, the diagnostics
    left empty. *)
Theorem setter_of_non_string_type_throws (block : Block.t) (post : list Block.t)
    (this : TypeManager) :
  Block.type block = "typed_lexical_variable_set" ->
  Block.getVariableType block <> "any" ->
  let actualType := getVariableType this (Block.getFieldValue block "VAR") in
  truthy actualType = true ->
  is_string actualType = false ->
  checkBlockTypeErrors block this = (Throws TypeError, this) /\
  checkTypeErrors (block :: post) this =
    (Throws TypeError, set_typeErrors (VArr []) this).
Proof.
  intros Htype Hany actualType Htruthy Hstring.
  assert (Hcheck : forall v,
            checkBlockTypeErrors block (set_typeErrors v this) =
            (Throws TypeError, set_typeErrors v this)).
  { intros v. rewrite (check_setter_eq _ _ Htype). cbn zeta.
    change (getVariableType (set_typeErrors v this) (Block.getFieldValue block "VAR"))
      with actualType.
    rewrite Htruthy, (areTypesCompatible_target_not_string _ _ Hstring).
    cbn [strict_eq]. apply String.eqb_neq in Hany. rewrite Hany.
    by destruct actualType. }
  split.
  - specialize (Hcheck (typeErrors this)). by destruct this.
  - rewrite checkTypeErrors_eq, for_of_cons, Hcheck. done.
Qed.

Lemma setter_of_non_string_type_throws_witness :
  importTypeInfo Compact.parse
    (Compact.write
       (VObj {["variableTypes" := VObj {["total" := VObj {["type" := VNum 5]}]}]}))
    new_TypeManager = (Returns (), registry_with_number_type) /\
  checkBlockTypeErrors (typed_lexical_variable_set "total" "number")
    registry_with_number_type = (Throws TypeError, registry_with_number_type) /\
  checkTypeErrors [typed_lexical_variable_set "total" "number"]
    registry_with_number_type =
    (Throws TypeError, set_typeErrors (VArr []) registry_with_number_type).
Proof.
  split.
  - apply importTypeInfo_object. apply CompactFacts.parse_write. reflexivity.
  - apply (setter_of_non_string_type_throws
             (typed_lexical_variable_set "total" "number") [] registry_with_number_type).
    + reflexivity.
    + discriminate.
    + reflexivity.
    + reflexivity.
Defined.

(** Export after a scan. *)
Lemma has_cycle_error_record block message :
  has_cycle (Block.self block) = true -> has_cycle (error_record block message) = true.
Proof.
  intros Hself. destruct (has_cycle (error_record block message)) eqn:E; [done|].
  unfold error_record in E. rewrite has_cycle_object in E.
  specialize (E "block" (Block.self block)). rewrite lookup_insert_eq in E.
  rewrite E in Hself; done.
Qed.

Lemma has_cycle_variable_record type scope :
  has_cycle (variable_record type scope) = false.
Proof.
  unfold variable_record. apply has_cycle_object.
  intros k x. rewrite !lookup_insert_Some, lookup_singleton_Some.
  intros [[_ <-] | [_ [[_ <-] | [_ [_ <-]]]]]; reflexivity.
Qed.

(** X12: after a scan of blocks that refer back to themselves (as the
    editor's blocks do through their field) on a registry that holds no
    cyclic value, [exportTypeInfo] returns a text when the scan found
    nothing and throws a TypeError when it found anything; after
    [clearTypeErrors()] it returns a text in both cases. *)
Theorem export_after_scan (JSON_text : jsval -> string) (blocks : list Block.t)
    (this this' : TypeManager) (errors : list jsval) :
  map_Forall (fun _ x => has_cycle x = false) (variableTypes this) ->
  map_Forall (fun _ x => has_cycle x = false) (blockTypes this) ->
  Forall (fun block => has_cycle (Block.self block) = true) blocks ->
  checkTypeErrors blocks this = (Returns (VArr errors), this') ->
  (errors = [] -> exists text, exportTypeInfo JSON_text this' = Returns (VStr text)) /\
  (errors <> [] -> exportTypeInfo JSON_text this' = Throws TypeError) /\
  (exists text, exportTypeInfo JSON_text (clearTypeErrors this').2 = Returns (VStr text)).
Proof.
  intros Hv Hb Hblocks Hscan. rewrite checkTypeErrors_eq in Hscan.
  pose proof (for_of_records blocks (set_typeErrors (VArr []) this)) as (Hb' & _ & Hnew).
  destruct (for_of_errors blocks (set_typeErrors (VArr []) this) [] eq_refl)
    as (new & Herrors & _ & Hfrom).
  destruct (for_of _ _ _) as [[[]|e] scanned]; [|done].
  injection Hscan as Herr ->. cbn [snd app] in *.
  rewrite Herr in Herrors. injection Herrors as <-.
  assert (Hv' : map_Forall (fun _ x => has_cycle x = false) (variableTypes this')).
  { intros name record [H | (d & _ & _ & _ & ->)]%Hnew; [by eapply Hv|].
    apply has_cycle_variable_record. }
  assert (Hb'' : map_Forall (fun _ x => has_cycle x = false) (blockTypes this'))
    by by rewrite Hb'.
  split; [|split; [|by apply exportTypeInfo_returns]].
  - intros ->. apply exportTypeInfo_returns; [done|done|]. by rewrite Herr.
  - intros Hne. apply exportTypeInfo_throws_iff.
    destruct (has_cycle (VObj (exported this'))) eqn:E; [done|].
    apply has_cycle_exported in E as (_ & _ & E). rewrite Herr in E.
    apply has_cycle_array in E. destruct errors as [|error errors]; [done|].
    apply Forall_cons in E as [E _].
    apply Forall_cons in Hfrom as [(b & message & Hin & ->) _].
    rewrite has_cycle_error_record in E; [done|].
    rewrite Forall_forall in Hblocks. by apply Hblocks.
Qed.

Lemma export_after_scan_witness :
  exportTypeInfo Compact.write
    (checkTypeErrors [typed_local_declaration_statement "counter" "number";
                      typed_lexical_variable_set "counter" "string"]
       new_TypeManager).2 = Throws TypeError /\
  (exists text,
     exportTypeInfo Compact.write
       (clearTypeErrors
          (checkTypeErrors [typed_local_declaration_statement "counter" "number";
                            typed_lexical_variable_set "counter" "string"]
             new_TypeManager).2).2 = Returns (VStr text)).
Proof.
  destruct (export_after_scan Compact.write
              [typed_local_declaration_statement "counter" "number";
               typed_lexical_variable_set "counter" "string"] new_TypeManager
              _ _ (map_Forall_empty _) (map_Forall_empty _)
              ltac:(repeat constructor) eq_refl) as (_ & Hthrows & Hclear).
  split; [apply Hthrows; discriminate | exact Hclear].
Defined.

(** * What stands behind a diagnostic *)







(** * The markers of a type name *)

Lemma one_char_suffix (x : string) (c d : ascii) :
  c <> d ->
  endsWith x (String c EmptyString) = true -> endsWith x (String d EmptyString) = false.
Proof.
  unfold endsWith. cbn [String.length]. intros Hne.
  destruct (String.length x <? 1); [done|].
  intros ->%String.eqb_eq. apply String.eqb_neq. congruence.
Qed.

Lemma ends_array_bracket (x : string) :
  endsWith x "[]" = true -> endsWith x "]" = true.
Proof.
  intros [b ->]%endsWith_spec; [|simpl; lia].
  change "[]" with ("[" +:+ "]"). rewrite <- CompactFacts.str_app_assoc.
  apply endsWith_app.
Qed.

Lemma ends_array_not_pointer (x : string) :
  endsWith x "[]" = true -> endsWith x "*" = false.
Proof. intros H%ends_array_bracket. by apply (one_char_suffix x "]" "*"). Qed.

Lemma ends_pointer_not_array (x : string) :
  endsWith x "*" = true -> endsWith x "[]" = false.
Proof.
  intros H. destruct (endsWith x "[]") eqn:E; [|done].
  apply ends_array_not_pointer in E. congruence.
Qed.

Lemma marked_not_any (x : string) (m : marker) :
  endsWith x (marker_suffix m) = true -> String.eqb x "any" = false.
Proof. intros H. apply String.eqb_neq. intros ->. by destruct m. Qed.

Lemma marked_not_numeric (x : string) (m : marker) :
  endsWith x (marker_suffix m) = true -> includes numericTypes (VStr x) = false.
Proof.
  intros H. destruct (includes numericTypes (VStr x)) eqn:E; [|done].
  apply includes_numeric_str in E. unfold numeric_set in E.
  repeat (destruct E as [<- | E]; [by destruct m|]). destruct E.
Qed.

Lemma slice_suffix (b : string) (m : marker) :
  slice (b +:+ marker_suffix m) 0 (- Z.of_nat (String.length (marker_suffix m))) = b.
Proof. apply slice_app. destruct m; simpl; lia. Qed.

Lemma app_suffix_inj (t s : string) (m : marker) :
  t +:+ marker_suffix m = s +:+ marker_suffix m -> t = s.
Proof.
  intros H. rewrite <- (slice_suffix t m), <- (slice_suffix s m). by rewrite H.
Qed.

Lemma areTypesCompatible_same (t : string) :
  areTypesCompatible (VStr t) (VStr t) = Returns true.
Proof.
  rewrite areTypesCompatible_str. unfold str_step. rewrite String.eqb_refl.
  by destruct (_ || _).
Qed.

Lemma areTypesCompatible_marked (t s : string) (m : marker) :
  areTypesCompatible (VStr (t +:+ marker_suffix m)) (VStr (s +:+ marker_suffix m)) =
  areTypesCompatible (VStr t) (VStr s).
Proof.
  rewrite areTypesCompatible_str. unfold str_step.
  pose proof (endsWith_app t (marker_suffix m)) as Ht.
  pose proof (endsWith_app s (marker_suffix m)) as Hs.
  rewrite (marked_not_any _ m Ht), (marked_not_any _ m Hs). cbn [orb].
  destruct (String.eqb_spec (t +:+ marker_suffix m) (s +:+ marker_suffix m)) as [Heq|Hne].
  { apply app_suffix_inj in Heq as ->. by rewrite areTypesCompatible_same. }
  rewrite (marked_not_numeric _ m Ht). cbn [andb].
  destruct m; cbn [marker_suffix] in *.
  - rewrite Ht, Hs. cbn [andb]. by rewrite !slice_array_app.
  - rewrite (ends_pointer_not_array _ Ht). cbn [andb].
    rewrite Ht, Hs. cbn [andb]. by rewrite !slice_pointer_app.
Qed.

Lemma areTypesCompatible_wrap (t s : string) (markers : list marker) :
  areTypesCompatible (VStr (wrap t markers)) (VStr (wrap s markers)) =
  areTypesCompatible (VStr t) (VStr s).
Proof.
  revert t s. induction markers as [|m markers IH]; intros t s; [done|].
  cbn [wrap]. rewrite IH. apply areTypesCompatible_marked.
Qed.

Lemma areTypesCompatible_array_pointer (t s : string) :
  areTypesCompatible (VStr (t +:+ "[]")) (VStr (s +:+ "*")) = Returns false.
Proof.
  rewrite areTypesCompatible_str. unfold str_step.
  pose proof (endsWith_app t "[]") as Ht.
  pose proof (endsWith_app s "*") as Hs.
  rewrite (marked_not_any _ Array Ht), (marked_not_any _ Pointer Hs). cbn [orb].
  destruct (String.eqb_spec (t +:+ "[]") (s +:+ "*")) as [Heq|Hne].
  { rewrite Heq in Ht. apply ends_array_not_pointer in Ht. congruence. }
  rewrite (marked_not_numeric _ Array Ht). cbn [andb].
  rewrite (ends_pointer_not_array _ Hs), andb_false_r.
  by rewrite (ends_array_not_pointer _ Ht).
Qed.

(** X13: appending the same array and pointer markers to two type names
    does not change what [areTypesCompatible] answers on them; a name
    ending in "[]" and a name ending in "*" are never compatible, in
    either order. *)
Theorem markers_and_compatibility (t s : string) (markers : list marker) :
  areTypesCompatible (VStr (wrap t markers)) (VStr (wrap s markers)) =
    areTypesCompatible (VStr t) (VStr s) /\
  areTypesCompatible (VStr (t +:+ "[]")) (VStr (s +:+ "*")) = Returns false /\
  areTypesCompatible (VStr (t +:+ "*")) (VStr (s +:+ "[]")) = Returns false.
Proof.
  split; [apply areTypesCompatible_wrap|].
  split; [apply areTypesCompatible_array_pointer|].
  rewrite fuel_sym_top. apply areTypesCompatible_array_pointer.
Qed.

Lemma wrap_snoc (base : string) (markers : list marker) (m : marker) :
  wrap base (markers ++ [m]) = wrap base markers +:+ marker_suffix m.
Proof.
  revert base. induction markers as [|m' markers IH]; intros base; [done|].
  cbn [app wrap]. apply IH.
Qed.

Lemma spec_true_heads t s b :
  spec_compatible t s b -> b = true ->
  exists markers t0 s0,
    t = wrap t0 markers /\ s = wrap s0 markers /\
    ((t0 = "any" \/ s0 = "any") \/ t0 = s0 \/
     (In t0 numeric_set /\ In s0 numeric_set)).
Proof.
  induction 1 as [t s H1|t s H1 H2|t s H1 H2 H3|tb sb b t s H1 H2 H3 _ IH
                 |tb sb b t s H1 H2 H3 H4 _ IH|t s H1 H2 H3 H4 H5]; intros Hb.
  - exists [], t, s. auto.
  - exists [], t, s. auto.
  - exists [], t, s. auto.
  - destruct (IH Hb) as (markers & t0 & s0 & -> & -> & Hheads).
    exists (markers ++ [Array]), t0, s0. by rewrite !wrap_snoc.
  - destruct (IH Hb) as (markers & t0 & s0 & -> & -> & Hheads).
    exists (markers ++ [Pointer]), t0, s0. by rewrite !wrap_snoc.
  - done.
Qed.

(** X14: [areTypesCompatible] in closed form: two type names are
    compatible exactly when they are two heads followed by the same
    sequence of "[]" and "*" markers, where one head is "any", or the
    heads are the same, or both are in [numericTypes]. *)
Theorem areTypesCompatible_closed_form (t s : string) :
  areTypesCompatible (VStr t) (VStr s) = Returns true <->
  exists markers t0 s0,
    t = wrap t0 markers /\ s = wrap s0 markers /\
    ((t0 = "any" \/ s0 = "any") \/ t0 = s0 \/
     (includes numericTypes (VStr t0) = true /\
      includes numericTypes (VStr s0) = true)).
Proof.
  split.
  - intros Htrue. destruct (spec_total (S (String.length t)) t s) as [b Hb]; [lia|].
    destruct (spec_true_heads t s b Hb) as (markers & t0 & s0 & Ht & Hs & Hheads).
    { apply spec_sound in Hb. congruence. }
    exists markers, t0, s0. split; [done|]. split; [done|].
    rewrite !includes_numeric_str. exact Hheads.
  - intros (markers & t0 & s0 & -> & -> & Hheads).
    rewrite areTypesCompatible_wrap.
    destruct Hheads as [[-> | ->] | [-> | [Ht Hs]]].
    + apply areTypesCompatible_any_l.
    + apply areTypesCompatible_any_r.
    + apply areTypesCompatible_same.
    + rewrite areTypesCompatible_str. unfold str_step. rewrite Ht, Hs. cbn [andb].
      destruct (_ || _); [done|]. by destruct (String.eqb t0 s0).
Qed.

(** * Operands that are not strings *)

Lemma areTypesCompatible_source_not_string (t : string) (sourceType : jsval) :
  is_string sourceType = false ->
  areTypesCompatible (VStr t) sourceType =
  if String.eqb t "any" then Returns true
  else if endsWith t "[]" || endsWith t "*" then Throws TypeError
  else Returns false.
Proof.
  intros H. unfold areTypesCompatible. cbn [depth_bound areTypesCompatible_fuel].
  assert (Hany : strict_eq sourceType (VStr "any") = false) by by destruct sourceType.
  assert (Heq : strict_eq (VStr t) sourceType = false) by by destruct sourceType.
  assert (Hnum : includes numericTypes sourceType = false) by by destruct sourceType.
  assert (Hends : forall x, js_endsWith sourceType x = Throws TypeError)
    by by destruct sourceType.
  rewrite Hany, Heq, Hnum, orb_false_r, andb_false_r. cbn [strict_eq].
  destruct (String.eqb t "any"); [done|].
  cbn [js_endsWith and_then]. rewrite !Hends.
  destruct (endsWith t "[]"); [done|]. cbn [mbind result_bind orb].
  by destruct (endsWith t "*").
Qed.

(** X15: [areTypesCompatible] with one operand that is not a string.
    With it as the target the call throws a TypeError unless the source
    is "any"; with it as the source the call returns true for the target
    "any", throws a TypeError when the target ends in "[]" or "*", and
    returns false otherwise. *)
Theorem areTypesCompatible_on_other_values (t : string) (v : jsval) :
  is_string v = false ->
  areTypesCompatible v (VStr t) =
    (if String.eqb t "any" then Returns true else Throws TypeError) /\
  areTypesCompatible (VStr t) v =
    (if String.eqb t "any" then Returns true
     else if endsWith t "[]" || endsWith t "*" then Throws TypeError
     else Returns false).
Proof.
  intros H. split.
  - rewrite (areTypesCompatible_target_not_string _ _ H). cbn [strict_eq].
    destruct (String.eqb t "any"); [done|]. by destruct v.
  - by apply areTypesCompatible_source_not_string.
Qed.

Lemma areTypesCompatible_on_other_values_witness :
  areTypesCompatible (VNum 5) (VStr "number") = Throws TypeError /\
  areTypesCompatible (VStr "number") (VNum 5) = Returns false.
Proof.
  apply (areTypesCompatible_on_other_values "number" (VNum 5)).
  reflexivity.
Defined.

(** * Every text of importTypeInfo *)

Lemma get_own_property (data : jsval) (name : string) :
  data <> VUndefined -> data <> VNull -> name <> "length" ->
  get data name = Returns (default VUndefined (own_properties data !! name)).
Proof.
  intros Hu Hn Hlength. apply String.eqb_neq in Hlength.
  destruct data; try done; unfold get;
    destruct (own_properties _ !! name); try done; by rewrite Hlength.
Qed.

Lemma importTypeInfo_data (JSON_parse : string -> option jsval) jsonString data this :
  JSON_parse jsonString = Some data ->
  data <> VUndefined -> data <> VNull ->
  importTypeInfo JSON_parse jsonString this = (Returns (), imported (own_properties data)).
Proof.
  intros Hparse Hu Hn. unfold importTypeInfo, try_catch. run. rewrite Hparse.
  rewrite !get_own_property by done. rewrite !Object_entries_or_else.
  unfold set_variableTypes, set_blockTypes, set_typeErrors. cbn.
  rewrite !new_Map_entries. reflexivity.
Qed.

(** X16: [importTypeInfo] never throws and never assigns in part: when
    the text does not parse, or reads as [null], the registry is left as
    it was, and in every other case the three stores are replaced
    together by what the parsed value holds, whatever they held
    before. *)
Theorem importTypeInfo_all_or_nothing (JSON_parse : string -> option jsval)
    (jsonString : string) (this : TypeManager) :
  importTypeInfo JSON_parse jsonString this =
  (Returns (),
   match JSON_parse jsonString with
   | None | Some VNull | Some VUndefined => this
   | Some data => imported (own_properties data)
   end).
Proof.
  destruct (JSON_parse jsonString) as [data|] eqn:Hparse.
  - destruct data; try (by apply importTypeInfo_data);
      unfold importTypeInfo, try_catch; run; by rewrite Hparse.
  - unfold importTypeInfo, try_catch. run. by rewrite Hparse.
Qed.

(** * A second round trip *)

Lemma imported_exported this :
  map_Forall (fun _ x => has_cycle x = false) (variableTypes this) ->
  map_Forall (fun _ x => has_cycle x = false) (blockTypes this) ->
  has_cycle (typeErrors this) = false ->
  let this' := imported (omap json_image (exported this)) in
  map_Forall (fun _ x => is_json x = true) (variableTypes this') /\
  map_Forall (fun _ x => is_json x = true) (blockTypes this') /\
  is_json (typeErrors this') = true /\
  truthy (typeErrors this') = true.
Proof.
  intros Hv Hb He. destruct (exported_lookup this) as (Ev & Eb & Ee).
  cbn zeta. unfold imported. cbn [variableTypes blockTypes typeErrors].
  rewrite !lookup_omap, Ev, Eb, Ee. cbn [mbind option_bind json_image default].
  unfold or_else at 1 2. cbn [truthy own_properties].
  assert (Hmap : forall m : gmap string jsval,
            map_Forall (fun _ x => has_cycle x = false) m ->
            map_Forall (fun _ x => is_json x = true) (omap json_image m)).
  { intros m Hm k j [x [Hj Hx]]%lookup_omap_Some.
    eapply json_image_is_json; [|exact Hj]. by eapply Hm. }
  split; [by apply Hmap|]. split; [by apply Hmap|].
  destruct (json_image (typeErrors this)) as [j|] eqn:Hj; cbn [default].
  - pose proof (json_image_is_json _ _ He Hj) as Hjson.
    unfold or_else, id. destruct (truthy j) eqn:Ht; [by rewrite Ht | done].
  - done.
Qed.

Lemma imported_exported_fixed this :
  map_Forall (fun _ x => is_json x = true) (variableTypes this) ->
  map_Forall (fun _ x => is_json x = true) (blockTypes this) ->
  is_json (typeErrors this) = true ->
  truthy (typeErrors this) = true ->
  imported (omap json_image (exported this)) = this.
Proof.
  intros Hv Hb He Ht. destruct (exported_lookup this) as (Ev & Eb & Ee).
  unfold imported. rewrite !lookup_omap, Ev, Eb, Ee.
  cbn [mbind option_bind json_image default].
  rewrite !omap_json_image_id by done.
  destruct (is_json_image _ He) as [_ ->]. cbn [default].
  unfold or_else, id. cbn [truthy own_properties]. rewrite Ht. by destruct this.
Qed.

(** X17: a second round trip changes nothing.  When [exportTypeInfo]
    returns a text, importing it gives a registry whose own export
    returns a text, and importing that text gives the same registry
    back. *)
Theorem second_round_trip_changes_nothing (JSON_text : jsval -> string)
    (JSON_parse : string -> option jsval) (this : TypeManager) (text : string) :
  JSON_law JSON_text JSON_parse ->
  exportTypeInfo JSON_text this = Returns (VStr text) ->
  exists this' text',
    importTypeInfo JSON_parse text this = (Returns (), this') /\
    exportTypeInfo JSON_text this' = Returns (VStr text') /\
    importTypeInfo JSON_parse text' this' = (Returns (), this').
Proof.
  intros Hlaw Hexport.
  pose proof (importTypeInfo_exported _ _ _ _ Hlaw Hexport) as Himport.
  rewrite exportTypeInfo_eq in Hexport.
  destruct (has_cycle (VObj (exported this))) eqn:Hc; [done|].
  apply has_cycle_exported in Hc as (Hv & Hb & He).
  destruct (imported_exported this Hv Hb He) as (Hv' & Hb' & He' & Ht').
  set (this' := imported (omap json_image (exported this))) in *.
  assert (Hexport' : exists text', exportTypeInfo JSON_text this' = Returns (VStr text')).
  { apply exportTypeInfo_returns.
    - intros k x Hx. by apply is_json_image, (Hv' k).
    - intros k x Hx. by apply is_json_image, (Hb' k).
    - by apply is_json_image. }
  destruct Hexport' as [text' Hexport'].
  exists this', text'. split; [done|]. split; [done|].
  rewrite (importTypeInfo_exported _ _ _ _ Hlaw Hexport').
  by rewrite imported_exported_fixed.
Qed.

Lemma second_round_trip_changes_nothing_witness :
  exists this' text',
    importTypeInfo Compact.parse
      (Compact.write (VObj (omap json_image (exported registry_with_undefined))))
      registry_with_undefined = (Returns (), this') /\
    exportTypeInfo Compact.write this' = Returns (VStr text') /\
    importTypeInfo Compact.parse text' this' = (Returns (), this').
Proof.
  apply (second_round_trip_changes_nothing Compact.write Compact.parse
           registry_with_undefined).
  - exact CompactFacts.parse_write.
  - reflexivity.
Defined.

(** * The type dropdown *)

Lemma getBaseType_marked (base : string) (m : marker) :
  FieldTypeDropdown.getBaseType (base +:+ marker_suffix m) = base.
Proof.
  unfold FieldTypeDropdown.getBaseType.
  pose proof (endsWith_app base (marker_suffix m)) as H. destruct m; cbn [marker_suffix] in *.
  - by rewrite H, slice_array_app.
  - by rewrite (ends_pointer_not_array _ H), H, slice_pointer_app.
Qed.

Lemma getBaseType_array (base : string) :
  FieldTypeDropdown.getBaseType (base +:+ "[]") = base.
Proof. apply (getBaseType_marked base Array). Qed.

Lemma getBaseType_pointer (base : string) :
  FieldTypeDropdown.getBaseType (base +:+ "*") = base.
Proof. apply (getBaseType_marked base Pointer). Qed.

(** X18: [getBaseType] removes exactly one marker: it undoes appending
    "[]" or "*"; every value is its base type followed by the marker it
    ends with, by nothing when it ends with neither; and no value is both
    an array type and a pointer type. *)
Theorem getBaseType_strips_one_marker (value : string) :
  (forall m, FieldTypeDropdown.getBaseType (value +:+ marker_suffix m) = value) /\
  value =
    FieldTypeDropdown.getBaseType value +:+
      (if endsWith value "[]" then "[]"
       else if FieldTypeDropdown.isPointerType value then "*" else "") /\
  FieldTypeDropdown.isArrayType value && FieldTypeDropdown.isPointerType value = false.
Proof.
  split; [intros m; apply getBaseType_marked|].
  unfold FieldTypeDropdown.isArrayType, FieldTypeDropdown.isPointerType.
  destruct (endsWith value "[]") eqn:Ha.
  - pose proof Ha as [b ->]%endsWith_spec; [|simpl; lia].
    rewrite getBaseType_array. by rewrite (ends_array_not_pointer _ Ha).
  - destruct (endsWith value "*") eqn:Hp.
    + pose proof Hp as [b ->]%endsWith_spec; [|simpl; lia].
      rewrite getBaseType_pointer. split; [done|]. cbn [orb].
      rewrite andb_true_r. apply String.eqb_neq. intros Heq. by rewrite Heq in Hp.
    + unfold FieldTypeDropdown.getBaseType. rewrite Ha, Hp.
      by rewrite CompactFacts.str_app_empty_r, andb_false_r.
Qed.

(** X19: for two values that both end in "[]", or both in "*",
    [areTypesCompatible] answers what it answers on their base types as
    [getBaseType] computes them. *)
Theorem base_types_decide_compatibility (value other : string) :
  endsWith value "[]" && endsWith other "[]" = true \/
  endsWith value "*" && endsWith other "*" = true ->
  areTypesCompatible (VStr value) (VStr other) =
  areTypesCompatible (VStr (FieldTypeDropdown.getBaseType value))
    (VStr (FieldTypeDropdown.getBaseType other)).
Proof.
  intros [[Hv Ho]%andb_true_iff | [Hv Ho]%andb_true_iff].
  - apply endsWith_spec in Hv as [b ->]; [|simpl; lia].
    apply endsWith_spec in Ho as [c ->]; [|simpl; lia].
    rewrite !getBaseType_array. apply (areTypesCompatible_marked b c Array).
  - apply endsWith_spec in Hv as [b ->]; [|simpl; lia].
    apply endsWith_spec in Ho as [c ->]; [|simpl; lia].
    rewrite !getBaseType_pointer. apply (areTypesCompatible_marked b c Pointer).
Qed.

Lemma base_types_decide_compatibility_witness :
  areTypesCompatible (VStr "int*") (VStr "float*") =
  areTypesCompatible (VStr (FieldTypeDropdown.getBaseType "int*"))
    (VStr (FieldTypeDropdown.getBaseType "float*")).
Proof.
  apply (base_types_decide_compatibility "int*" "float*"). right. reflexivity.
Defined.
